(** * YUV 4:2:0 semi-planar to ARGB8888 conversion

    A shallow embedding of [image_utils/yuv2rgb.cc] and the properties its
    specification states about it.  C [int] values are integers of [Z] with
    the 32-bit two's complement wrap-around written out at every arithmetic
    operation (what the compiled code does where C++ leaves signed overflow
    undefined); [uint8_t] samples are [Byte.byte]; a buffer is a list, read
    through an index that may fall outside it (the read then has no result,
    and neither has the conversion).  The converter is given twice: on two
    buffers of their own, and on two pointers into one array, which is how
    the JNI binding calls it.
*)

From Stdlib Require Import ZArith Lia.
From Stdlib Require Import Strings.Byte.
From stdpp Require Import base option list.

Local Open Scope Z_scope.

(** ** Machine integers *)

Module CInt.

Definition INT_MIN : Z := -2147483648.
Definition INT_MAX : Z := 2147483647.

(** The value of a mathematical integer once stored in a 32-bit [int]. *)
Definition wrap_int (z : Z) : Z := (z + 2147483648) mod 4294967296 - 2147483648.

(** The value of an integer converted to [uint32_t]. *)
Definition to_uint32 (z : Z) : Z := z mod 4294967296.

Definition int_add (a b : Z) : Z := wrap_int (a + b).
Definition int_sub (a b : Z) : Z := wrap_int (a - b).
Definition int_mul (a b : Z) : Z := wrap_int (a * b).
Definition int_shl (a n : Z) : Z := wrap_int (Z.shiftl a n).
(** [>>] on an [int] is the arithmetic shift. *)
Definition int_shr (a n : Z) : Z := Z.shiftr a n.

(** The macros of yuv2rgb.cc, lines 22 and 23. *)
Definition MAX (a b : Z) : Z := if a >? b then a else b.
Definition MIN (a b : Z) : Z := if a <? b then a else b.

Definition is_int (z : Z) : Prop := INT_MIN <= z <= INT_MAX.

End CInt.
Import CInt.

(** ** The per-pixel conversion, yuv2rgb.cc lines 26 to 55 *)

Definition kMaxChannelValue : Z := 262143.

(** Lines 31 to 48: the three channels after the matrix and the clamp. *)
Definition clamp_channel (n : Z) : Z := MIN kMaxChannelValue (MAX 0 n).

Definition channels (nY nU nV : Z) : Z * Z * Z :=
  let nY := int_sub nY 16 in
  let nU := int_sub nU 128 in
  let nV := int_sub nV 128 in
  let nY := if nY <? 0 then 0 else nY in
  let nR := int_add (int_mul 1192 nY) (int_mul 1634 nV) in
  let nG := int_sub (int_sub (int_mul 1192 nY) (int_mul 833 nV)) (int_mul 400 nU) in
  let nB := int_add (int_mul 1192 nY) (int_mul 2066 nU) in
  (clamp_channel nR, clamp_channel nG, clamp_channel nB).

(** Lines 50 to 52: [(n >> 10) & 0xff]. *)
Definition normalize (n : Z) : Z := Z.land (int_shr n 10) 255.

(** Line 54: [0xff000000 | (nR << 16) | (nG << 8) | nB], an [unsigned]
    expression since the literal does not fit an [int]. *)
Definition pack (nR nG nB : Z) : Z :=
  Z.lor (Z.lor (Z.lor 4278190080 (to_uint32 (int_shl nR 16)))
               (to_uint32 (int_shl nG 8)))
        (to_uint32 nB).

Definition YUV2RGB (nY nU nV : Z) : Z :=
  let '(nR, nG, nB) := channels nY nU nV in
  pack (normalize nR) (normalize nG) (normalize nB).

(** ** Buffers and loops *)

Definition byte_to_int (b : byte) : Z := Z.of_N (Byte.to_N b).

(** [buf[i]] for a [const uint8_t*] and an [int] index, widened to [int].
    An index outside the buffer has no defined result. *)
Definition read (buf : list byte) (i : Z) : option Z :=
  if decide (0 <= i) then byte_to_int <$> buf !! Z.to_nat i else None.

(** The two cursors of the conversion: [pY] as an index into [yData] and the
    words stored so far through [*out++], first one first. *)
Record state : Type := State { pY : Z; out : list Z }.

(** [for (int i = start; i < start + n; i++) body], the body run [n] times. *)
Fixpoint for_loop (n : nat) (i : Z) (body : Z -> state -> option state)
    (st : state) : option state :=
  match n with
  | O => Some st
  | S n' => st' ← body i st; for_loop n' (i + 1) body st'
  end.

(** [for (int i = 0; i < bound; i++) body]: no iteration for [bound <= 0];
    the counter stays below [bound], so its increment cannot overflow. *)
Definition for_int (bound : Z) (body : Z -> state -> option state)
    (st : state) : option state :=
  for_loop (Z.to_nat bound) 0 body st.

(** Line 72: [(y >> 1) * width + 2 * (x >> 1)]. *)
Definition chroma_offset (width y x : Z) : Z :=
  int_add (int_mul (int_shr y 1) width) (int_mul 2 (int_shr x 1)).

(** ** ConvertYUV420SPToARGB8888, yuv2rgb.cc lines 61 to 89 *)

Section Converter.

(** Whether the build defines [__APPLE__] (lines 73 to 79). *)
Variable APPLE : bool.

(** Lines 73 to 79; the result is the pair [(nU, nV)]. *)
Definition read_chroma (pUV : list byte) (offset : Z) : option (Z * Z) :=
  if APPLE then
    nU ← read pUV offset; nV ← read pUV (int_add offset 1); Some (nU, nV)
  else
    nV ← read pUV offset; nU ← read pUV (int_add offset 1); Some (nU, nV).

(** Lines 71 to 86, the body of the inner loop: [*pY++], the chroma block
    offset, the two chroma reads, and the store through [*out++]. *)
Definition pixel (yData uvData : list byte) (width : Z) (uv_flipped : bool)
    (y x : Z) (st : state) : option state :=
  nY ← read yData (pY st);
  let pY' := pY st + 1 in
  let offset := chroma_offset width y x in
  '(nU, nV) ← read_chroma uvData offset;
  if uv_flipped then
    Some (State pY' (out st ++ [YUV2RGB nY nV nU]))
  else
    Some (State pY' (out st ++ [YUV2RGB nY nU nV])).

Definition ConvertYUV420SPToARGB8888 (yData uvData : list byte)
    (width height : Z) (uv_flipped : bool) : option (list Z) :=
  st ← for_int height
         (fun y => for_int width (pixel yData uvData width uv_flipped y))
         (State 0 []);
  Some (out st).

End Converter.

(** ** Vocabulary of the specification *)

(** Bits 24 to 31, 16 to 23, 8 to 15 and 0 to 7 of a packed pixel. *)
Definition alpha (w : Z) : Z := Z.land (Z.shiftr w 24) 255.
Definition red (w : Z) : Z := Z.land (Z.shiftr w 16) 255.
Definition green (w : Z) : Z := Z.land (Z.shiftr w 8) 255.
Definition blue (w : Z) : Z := Z.land w 255.

(** The colour recipe as section 4.1 of the specification words it, over
    unbounded integers. *)
Definition spec_channel (c : Z) : Z :=
  Z.land (Z.shiftr (Z.min 262143 (Z.max 0 c)) 10) 255.

Definition spec_argb (Y U V : Z) : Z :=
  let Y' := Z.max (Y - 16) 0 in
  let U' := U - 128 in
  let V' := V - 128 in
  let R := 1192 * Y' + 1634 * V' in
  let G := 1192 * Y' - 833 * V' - 400 * U' in
  let B := 1192 * Y' + 2066 * U' in
  Z.lor (Z.lor (Z.lor 4278190080 (Z.shiftl (spec_channel R) 16))
               (Z.shiftl (spec_channel G) 8))
        (spec_channel B).

(** Which of the two bytes of a chroma pair is U and which is V, as the
    specification words it: [UV[off]] is V and [UV[off+1]] is U by default,
    the platform order swaps them, and [uvFlipped] swaps them once more.
    The result is [(U, V)]. *)
Definition spec_roles (APPLE uv_flipped : bool) (first second : Z) : Z * Z :=
  if xorb APPLE uv_flipped then (first, second) else (second, first).

(** The chroma block offset of the specification, over unbounded integers. *)
Definition spec_offset (width y x : Z) : Z :=
  Z.shiftr y 1 * width + 2 * Z.shiftr x 1.

(** The dimensions of a frame: positive, even, [int]s, and such that the
    last chroma index [width*height/2 - 1] is an [int] as well. *)
Record valid_dims (width height : Z) : Prop := ValidDims {
  width_pos : 0 < width;
  height_pos : 0 < height;
  width_even : Z.even width = true;
  height_even : Z.even height = true;
  width_int : width <= INT_MAX;
  height_int : height <= INT_MAX;
  chroma_int : width * height / 2 - 1 <= INT_MAX
}.

(** A frame the converter may be called on (section 3 of the specification):
    valid dimensions, a luma plane of at least [width*height] samples and a
    chroma plane of at least [width*height/2] bytes. *)
Record valid_frame (yData uvData : list byte) (width height : Z) : Prop :=
  ValidFrame {
  frame_dims : valid_dims width height;
  luma_size : width * height <= Z.of_nat (length yData);
  chroma_size : width * height / 2 <= Z.of_nat (length uvData)
}.

(** The interleaved chroma plane with U and V exchanged at every pair. *)
Fixpoint swap_uv (uv : list byte) : list byte :=
  match uv with
  | a :: b :: rest => b :: a :: swap_uv rest
  | _ => uv
  end.

(** The word the body of the inner loop stores for the pixel [(x, y)] when
    [pY] stands at index [p]. *)
Definition pixel_word (APPLE : bool) (yData uvData : list byte) (width : Z)
    (uv_flipped : bool) (p y x : Z) : option Z :=
  nY ← read yData p;
  '(nU, nV) ← read_chroma APPLE uvData (chroma_offset width y x);
  Some (if uv_flipped then YUV2RGB nY nV nU else YUV2RGB nY nU nV).

(** The words a loop stores, for a body that appends the words [G i p] at
    counter [i] and luma cursor [p] and moves the cursor by [c]. *)
Fixpoint loop_words (G : Z -> Z -> option (list Z)) (c : Z) (n : nat)
    (i p : Z) : option (list Z) :=
  match n with
  | O => Some []
  | S n' =>
      ws ← G i p; rest ← loop_words G c n' (i + 1) (p + c); Some (ws ++ rest)
  end.

(** The words one run of the inner loop stores for row [y], entered with the
    luma cursor at [p]; and the words the whole conversion stores. *)
Definition row_words (APPLE : bool) (yData uvData : list byte) (width : Z)
    (uv_flipped : bool) (y p : Z) : option (list Z) :=
  loop_words
    (fun x q => w ← pixel_word APPLE yData uvData width uv_flipped q y x; Some [w])
    1 (Z.to_nat width) 0 p.

Definition frame_words (APPLE : bool) (yData uvData : list byte)
    (width height : Z) (uv_flipped : bool) : option (list Z) :=
  loop_words (row_words APPLE yData uvData width uv_flipped)
    (Z.of_nat (Z.to_nat width)) (Z.to_nat height) 0 0.

(** ** The converter on pointers into one array *)

(** A [const uint8_t*]: an array and the index of the element it points to.
    The index may lie outside the array; only reading through the pointer
    needs an element to be there. *)
Record pointer : Type := Pointer { block : list byte; index : Z }.

(** [p[i]] for an [int] index, widened to [int]. *)
Definition load (p : pointer) (i : Z) : option Z := read (block p) (index p + i).

(** ConvertYUV420SPToARGB8888 (yuv2rgb.cc lines 61 to 89) once more, with
    [yData] and [uvData] as pointers that may point into the same array, as
    they do in the bindings.  [pY] is counted from [yData]. *)
Module Ptr.

Section Converter.

Variable APPLE : bool.

Definition read_chroma (pUV : pointer) (offset : Z) : option (Z * Z) :=
  if APPLE then
    nU ← load pUV offset; nV ← load pUV (int_add offset 1); Some (nU, nV)
  else
    nV ← load pUV offset; nU ← load pUV (int_add offset 1); Some (nU, nV).

Definition pixel (yData uvData : pointer) (width : Z) (uv_flipped : bool)
    (y x : Z) (st : state) : option state :=
  nY ← load yData (pY st);
  let pY' := pY st + 1 in
  let offset := chroma_offset width y x in
  '(nU, nV) ← read_chroma uvData offset;
  if uv_flipped then
    Some (State pY' (out st ++ [YUV2RGB nY nV nU]))
  else
    Some (State pY' (out st ++ [YUV2RGB nY nU nV])).

Definition ConvertYUV420SPToARGB8888 (yData uvData : pointer)
    (width height : Z) (uv_flipped : bool) : option (list Z) :=
  st ← for_int height
         (fun y => for_int width (pixel yData uvData width uv_flipped y))
         (State 0 []);
  Some (out st).

(** The word stored for the pixel [(x, y)] when [pY] stands [p] elements
    after [yData]; the words of one row and of the whole conversion. *)
Definition pixel_word (yData uvData : pointer) (width : Z)
    (uv_flipped : bool) (p y x : Z) : option Z :=
  nY ← load yData p;
  '(nU, nV) ← read_chroma uvData (chroma_offset width y x);
  Some (if uv_flipped then YUV2RGB nY nV nU else YUV2RGB nY nU nV).

Definition row_words (yData uvData : pointer) (width : Z)
    (uv_flipped : bool) (y p : Z) : option (list Z) :=
  loop_words
    (fun x q => w ← pixel_word yData uvData width uv_flipped q y x; Some [w])
    1 (Z.to_nat width) 0 p.

Definition frame_words (yData uvData : pointer) (width height : Z)
    (uv_flipped : bool) : option (list Z) :=
  loop_words (row_words yData uvData width uv_flipped)
    (Z.of_nat (Z.to_nat width)) (Z.to_nat height) 0 0.

End Converter.

End Ptr.

(** ** The JNI binding of the converter, imageutils_jni.cc *)

(** A [uint32_t] word read back as a [jint], the view Java has of a pixel
    stored through [reinterpret_cast<uint32_t*>(o)]. *)
Definition as_jint (w : Z) : Z := wrap_int w.

(** The [int] array once the words [ws] have been stored from its first
    element on; storing past its end has no defined result. *)
Definition store_words (output : list Z) (ws : list Z) : option (list Z) :=
  if decide (length ws <= length output)%nat then
    Some ((as_jint <$> ws) ++ drop (length ws) output)
  else None.

Section Bindings.

Variable APPLE : bool.

(** Lines 65 to 81.  [input] holds the elements of the Java [byte] array,
    [output] those of the Java [int] array; the result is the [int] array
    after [ReleaseIntArrayElements] with mode 0.  The [byte] array is
    released with [JNI_ABORT] and keeps its elements.  The chroma pointer
    is the input pointer moved by the [int] product [width * height]. *)
Definition convertYUV420SPToARGB8888 (input : list byte) (output : list Z)
    (width height : Z) (uvFlipped : bool) : option (list Z) :=
  ws ← Ptr.ConvertYUV420SPToARGB8888 APPLE
         (Pointer input 0) (Pointer input (int_mul width height))
         width height uvFlipped;
  store_words output ws.

End Bindings.

(** * Properties *)

(** ** Machine integers *)

Lemma wrap_int_small z : is_int z -> wrap_int z = z.
Proof.
  unfold is_int, INT_MIN, INT_MAX, wrap_int. intros H.
  rewrite Z.mod_small by lia. lia.
Qed.

Lemma wrap_int_is_int z : is_int (wrap_int z).
Proof.
  unfold is_int, INT_MIN, INT_MAX, wrap_int.
  pose proof (Z.mod_pos_bound (z + 2147483648) 4294967296). lia.
Qed.

Lemma wrap_int_even z : Z.even (wrap_int z) = Z.even z.
Proof.
  unfold wrap_int.
  rewrite (Z.mod_eq (z + 2147483648) 4294967296) by lia.
  replace (z + 2147483648 - 4294967296 * ((z + 2147483648) / 4294967296) - 2147483648)
    with (z + 2 * (- 2147483648 * ((z + 2147483648) / 4294967296))) by lia.
  rewrite Z.even_add_mul_2. reflexivity.
Qed.

Lemma shiftr_1_half z : Z.shiftr z 1 = z / 2.
Proof. rewrite Z.shiftr_div_pow2 by lia. reflexivity. Qed.

(** ** The per-pixel conversion *)

Lemma MAX_max a b : MAX a b = Z.max a b.
Proof. unfold MAX. rewrite Z.gtb_ltb. destruct (Z.ltb_spec b a); lia. Qed.

Lemma MIN_min a b : MIN a b = Z.min a b.
Proof. unfold MIN. destruct (Z.ltb_spec a b); lia. Qed.

Lemma clamp_channel_min_max n : clamp_channel n = Z.min 262143 (Z.max 0 n).
Proof. unfold clamp_channel, kMaxChannelValue. now rewrite MIN_min, MAX_max. Qed.

Lemma clamp_channel_range n : 0 <= clamp_channel n <= 262143.
Proof. rewrite clamp_channel_min_max. lia. Qed.

Lemma shiftr_10_byte n : 0 <= n <= 262143 -> 0 <= Z.shiftr n 10 <= 255.
Proof.
  intros H. rewrite Z.shiftr_div_pow2 by lia. change (2 ^ 10) with 1024.
  split; [apply Z.div_pos; lia|].
  apply Z.lt_succ_r, Z.div_lt_upper_bound; lia.
Qed.

Lemma land_255_byte n : 0 <= n <= 255 -> Z.land n 255 = n.
Proof.
  intros H. change 255 with (Z.ones 8).
  rewrite Z.land_ones by lia. apply Z.mod_small. change (2 ^ 8) with 256. lia.
Qed.

Lemma normalize_shift n : 0 <= n <= 262143 -> normalize n = Z.shiftr n 10.
Proof. intros H. apply land_255_byte, shiftr_10_byte, H. Qed.

Lemma normalize_range n : 0 <= n <= 262143 -> 0 <= normalize n <= 255.
Proof. intros H. rewrite normalize_shift by exact H. now apply shiftr_10_byte. Qed.

(** Drops every [wrap_int] whose argument is seen to fit an [int]. *)
Ltac int_small :=
  repeat match goal with
  | |- context [wrap_int ?z] =>
      rewrite (wrap_int_small z) by (unfold is_int, INT_MIN, INT_MAX; lia)
  end.

Lemma pack_lor r g b :
  0 <= r <= 255 -> 0 <= g <= 255 -> 0 <= b <= 255 ->
  pack r g b =
  Z.lor (Z.lor (Z.lor 4278190080 (Z.shiftl r 16)) (Z.shiftl g 8)) b.
Proof.
  intros Hr Hg Hb. unfold pack, int_shl, to_uint32.
  rewrite !Z.shiftl_mul_pow2 by lia.
  change (2 ^ 16) with 65536. change (2 ^ 8) with 256.
  int_small. rewrite !Z.mod_small by lia. reflexivity.
Qed.

Lemma shiftr_byte_0 c k : 0 <= c <= 255 -> 8 <= k -> Z.shiftr c k = 0.
Proof.
  intros Hc Hk. rewrite Z.shiftr_div_pow2 by lia. apply Z.div_small.
  split; [lia|]. apply Z.lt_le_trans with (2 ^ 8); [change (2 ^ 8) with 256; lia|].
  apply Z.pow_le_mono_r; lia.
Qed.

Lemma pack_high_byte r g b :
  0 <= r <= 255 -> 0 <= g <= 255 -> 0 <= b <= 255 ->
  Z.shiftr (pack r g b) 24 = 255.
Proof.
  intros Hr Hg Hb. rewrite pack_lor by assumption.
  rewrite !Z.shiftr_lor, !Z.shiftr_shiftl_r by lia.
  rewrite (shiftr_byte_0 r), (shiftr_byte_0 g), (shiftr_byte_0 b) by lia.
  reflexivity.
Qed.

Lemma high_byte_word w : Z.shiftr w 24 = 255 -> 0 <= w < 4294967296 /\ alpha w = 255.
Proof.
  intros H. unfold alpha. rewrite H. split; [|reflexivity].
  rewrite Z.shiftr_div_pow2 in H by lia. change (2 ^ 24) with 16777216 in H.
  pose proof (Z.mul_div_le w 16777216). pose proof (Z.mul_succ_div_gt w 16777216). lia.
Qed.

Lemma channels_range nY nU nV :
  let '(nR, nG, nB) := channels nY nU nV in
  0 <= nR <= 262143 /\ 0 <= nG <= 262143 /\ 0 <= nB <= 262143.
Proof. unfold channels. auto using clamp_channel_range. Qed.

Lemma YUV2RGB_high_byte nY nU nV : Z.shiftr (YUV2RGB nY nU nV) 24 = 255.
Proof.
  unfold YUV2RGB. pose proof (channels_range nY nU nV) as H.
  destruct (channels nY nU nV) as [[nR nG] nB]. destruct H as (HR & HG & HB).
  apply pack_high_byte; now apply normalize_range.
Qed.

Lemma byte_to_int_range b : 0 <= byte_to_int b <= 255.
Proof. unfold byte_to_int. pose proof (Byte.to_N_bounded b). lia. Qed.

Lemma YUV2RGB_spec_argb nY nU nV :
  0 <= nY <= 255 -> 0 <= nU <= 255 -> 0 <= nV <= 255 ->
  YUV2RGB nY nU nV = spec_argb nY nU nV.
Proof.
  intros HY HU HV. unfold YUV2RGB.
  pose proof (channels_range nY nU nV) as H. revert H.
  unfold channels, int_add, int_sub, int_mul. int_small.
  replace (if nY - 16 <? 0 then 0 else nY - 16) with (Z.max (nY - 16) 0)
    by (destruct (Z.ltb_spec (nY - 16) 0); lia).
  int_small. rewrite !clamp_channel_min_max. intros (HR & HG & HB).
  rewrite pack_lor by (apply normalize_range; assumption).
  reflexivity.
Qed.

(** ** Loops *)

Lemma for_loop_words body G c :
  (forall i st,
     body i st = ws ← G i (pY st); Some (State (pY st + c) (out st ++ ws))) ->
  forall n i st,
    for_loop n i body st =
    ws ← loop_words G c n i (pY st);
    Some (State (pY st + Z.of_nat n * c) (out st ++ ws)).
Proof.
  intros Hbody. induction n as [|n IH]; intros i st.
  - destruct st as [p o]. simpl. rewrite app_nil_r, Z.add_0_r. reflexivity.
  - cbn [for_loop loop_words]. rewrite Hbody.
    destruct (G i (pY st)) as [ws|]; [|reflexivity].
    simpl. rewrite IH. simpl.
    destruct (loop_words G c n (i + 1) (pY st + c)) as [rest|]; [|reflexivity].
    simpl. rewrite app_assoc. do 2 f_equal. lia.
Qed.

Lemma loop_words_lookup G c :
  (forall i p ws, G i p = Some ws -> Z.of_nat (length ws) = c) ->
  forall n i p ws, loop_words G c n i p = Some ws ->
    Z.of_nat (length ws) = Z.of_nat n * c /\
    forall k r, 0 <= k < Z.of_nat n -> 0 <= r < c ->
      exists wk, G (i + k) (p + k * c) = Some wk /\
                 ws !! Z.to_nat (k * c + r) = wk !! Z.to_nat r.
Proof.
  intros Hlen. induction n as [|n IH]; intros i p ws H.
  - injection H as <-. split; [reflexivity|]. intros; lia.
  - cbn [loop_words] in H.
    destruct (G i p) as [w0|] eqn:E0; [|discriminate]. simpl in H.
    destruct (loop_words G c n (i + 1) (p + c)) as [rest|] eqn:Er; [|discriminate].
    injection H as <-.
    pose proof (Hlen _ _ _ E0) as L0. destruct (IH _ _ _ Er) as [Lr Hr].
    split; [rewrite length_app; lia|].
    intros k r Hk Hrc. destruct (Z.eq_dec k 0) as [->|Hk0].
    + exists w0. rewrite Z.add_0_r. replace (p + 0 * c) with p by lia.
      split; [exact E0|]. rewrite lookup_app_l by lia. reflexivity.
    + destruct (Hr (k - 1) r) as (wk & Ek & Lk); [lia|lia|].
      exists wk. split.
      * replace (i + k) with (i + 1 + (k - 1)) by lia.
        replace (p + k * c) with (p + c + (k - 1) * c) by lia. exact Ek.
      * assert (0 <= (k - 1) * c) by (apply Z.mul_nonneg_nonneg; lia).
        replace (k * c + r) with (c + ((k - 1) * c + r)) by lia.
        rewrite lookup_app_r by lia. rewrite <- Lk. f_equal. lia.
Qed.

Lemma loop_words_total G c n :
  forall i p,
    (forall k, 0 <= k < Z.of_nat n -> is_Some (G (i + k) (p + k * c))) ->
    is_Some (loop_words G c n i p).
Proof.
  induction n as [|n IH]; intros i p H; [eexists; reflexivity|].
  cbn [loop_words].
  destruct (H 0) as [w0 E0]; [lia|].
  rewrite Z.add_0_r in E0. replace (p + 0 * c) with p in E0 by lia. rewrite E0.
  destruct (IH (i + 1) (p + c)) as [rest Er].
  - intros k Hk. replace (i + 1 + k) with (i + (k + 1)) by lia.
    replace (p + c + k * c) with (p + (k + 1) * c) by lia. apply H. lia.
  - simpl. rewrite Er. eexists; reflexivity.
Qed.

Section ConverterFacts.

Variable APPLE : bool.
Variables yData uvData : list byte.
Variable width : Z.
Variable uv_flipped : bool.

Lemma pixel_pixel_word y x st :
  pixel APPLE yData uvData width uv_flipped y x st =
  w ← pixel_word APPLE yData uvData width uv_flipped (pY st) y x;
  Some (State (pY st + 1) (out st ++ [w])).
Proof.
  unfold pixel, pixel_word.
  destruct (read yData (pY st)) as [nY|]; [|reflexivity]. simpl.
  destruct (read_chroma APPLE uvData _) as [[nU nV]|]; [|reflexivity].
  now destruct uv_flipped.
Qed.

Lemma row_loop y st :
  for_int width (pixel APPLE yData uvData width uv_flipped y) st =
  ws ← row_words APPLE yData uvData width uv_flipped y (pY st);
  Some (State (pY st + Z.of_nat (Z.to_nat width)) (out st ++ ws)).
Proof.
  unfold for_int, row_words.
  rewrite for_loop_words with
    (G := fun x q => w ← pixel_word APPLE yData uvData width uv_flipped q y x;
                    Some [w]) (c := 1).
  - rewrite Z.mul_1_r. reflexivity.
  - intros x st'. rewrite pixel_pixel_word.
    destruct (pixel_word _ _ _ _ _ _ _ _); reflexivity.
Qed.

Lemma convert_frame_words height :
  ConvertYUV420SPToARGB8888 APPLE yData uvData width height uv_flipped =
  frame_words APPLE yData uvData width height uv_flipped.
Proof.
  unfold ConvertYUV420SPToARGB8888, frame_words, for_int.
  rewrite for_loop_words with
    (G := row_words APPLE yData uvData width uv_flipped)
    (c := Z.of_nat (Z.to_nat width)) by apply row_loop.
  simpl. destruct (loop_words _ _ _ _ _); reflexivity.
Qed.

Lemma row_words_length y p ws :
  row_words APPLE yData uvData width uv_flipped y p = Some ws ->
  Z.of_nat (length ws) = Z.of_nat (Z.to_nat width).
Proof.
  intros H. apply loop_words_lookup in H as [H _]; [lia|].
  intros i q l E. destruct (pixel_word _ _ _ _ _ _ _ _); [|discriminate].
  injection E as <-. reflexivity.
Qed.

(** Whatever the buffers, a conversion that completes has stored, at raster
    position [y * width + x], the word of pixel [(x, y)] computed from the
    luma sample at that same index. *)
Lemma convert_lookup height ws :
  ConvertYUV420SPToARGB8888 APPLE yData uvData width height uv_flipped = Some ws ->
  Z.of_nat (length ws) = Z.of_nat (Z.to_nat height) * Z.of_nat (Z.to_nat width) /\
  forall x y, 0 <= x < width -> 0 <= y < height ->
    exists w,
      pixel_word APPLE yData uvData width uv_flipped (y * width + x) y x = Some w /\
      ws !! Z.to_nat (y * width + x) = Some w.
Proof.
  rewrite convert_frame_words. unfold frame_words. intros H.
  apply loop_words_lookup in H as [Hlen H]; [|apply row_words_length].
  split; [exact Hlen|]. intros x y Hx Hy.
  destruct (H y x) as (row & Erow & Lrow); [lia|lia|].
  rewrite Z2Nat.id in Erow, Lrow by lia. rewrite !Z.add_0_l in Erow.
  rewrite Lrow. unfold row_words in Erow.
  apply loop_words_lookup in Erow as [_ Erow].
  - destruct (Erow x 0) as (wk & Ek & Lk); [lia|lia|].
    rewrite Z.add_0_l, Z.mul_1_r in Ek. rewrite Z.mul_1_r, Z.add_0_r in Lk.
    destruct (pixel_word _ _ _ _ _ _ _ _) as [w|]; [|discriminate].
    injection Ek as <-. exists w. split; [reflexivity|]. rewrite Lk. reflexivity.
  - intros i q l E. destruct (pixel_word _ _ _ _ _ _ _ _); [|discriminate].
    injection E as <-. reflexivity.
Qed.

(** A conversion completes as soon as every pixel has its three samples. *)
Lemma convert_total height :
  (forall x y, 0 <= x < width -> 0 <= y < height ->
     is_Some (pixel_word APPLE yData uvData width uv_flipped (y * width + x) y x)) ->
  is_Some (ConvertYUV420SPToARGB8888 APPLE yData uvData width height uv_flipped).
Proof.
  intros H. rewrite convert_frame_words. unfold frame_words.
  apply loop_words_total. intros y Hy. unfold row_words.
  apply loop_words_total. intros x Hx.
  destruct (H x y) as [w E]; [lia|lia|].
  rewrite !Z.add_0_l, Z.mul_1_r.
  rewrite Z2Nat.id by lia. rewrite E. eexists; reflexivity.
Qed.

End ConverterFacts.

(** ** Indices of a valid frame *)

Lemma read_range buf i v : read buf i = Some v -> 0 <= v <= 255.
Proof.
  unfold read. destruct (decide (0 <= i)); [|discriminate].
  destruct (buf !! Z.to_nat i) as [b|]; [|discriminate].
  intros [= <-]. apply byte_to_int_range.
Qed.

Lemma read_in_bounds buf i :
  0 <= i < Z.of_nat (length buf) -> is_Some (read buf i).
Proof.
  intros H. unfold read. destruct (decide (0 <= i)); [|lia].
  destruct (lookup_lt_is_Some_2 buf (Z.to_nat i)) as [b E]; [lia|].
  rewrite E. eexists; reflexivity.
Qed.

Lemma read_negative buf i : i < 0 -> read buf i = None.
Proof. intros H. unfold read. destruct (decide (0 <= i)); [lia|reflexivity]. Qed.

Lemma even_half z : Z.even z = true -> z = 2 * (z / 2).
Proof. intros H. apply Z.even_spec in H as [k ->]. now rewrite Z.mul_comm, Z.div_mul, Z.mul_comm. Qed.

Lemma half_plane width height :
  Z.even width = true -> width * height / 2 = width / 2 * height.
Proof.
  intros H. rewrite (even_half width H) at 1.
  replace (2 * (width / 2) * height) with (width / 2 * height * 2) by lia.
  now rewrite Z.div_mul.
Qed.

Lemma chroma_offset_valid width height x y :
  valid_dims width height -> 0 <= x < width -> 0 <= y < height ->
  chroma_offset width y x = spec_offset width y x /\
  int_add (chroma_offset width y x) 1 = spec_offset width y x + 1 /\
  0 <= spec_offset width y x /\
  spec_offset width y x + 1 < width * height / 2.
Proof.
  intros [Hw Hh Ew Eh Iw Ih Ic] Hx Hy.
  unfold chroma_offset, spec_offset, int_add, int_mul, int_shr.
  rewrite !shiftr_1_half.
  rewrite half_plane in * by exact Ew.
  pose proof (even_half _ Ew) as Ea. pose proof (even_half _ Eh) as Eb.
  set (a := width / 2) in *. set (b := height / 2) in *.
  assert (0 <= x / 2 <= a - 1) as HX.
  { split; [apply Z.div_pos; lia|].
    apply Z.lt_le_pred, Z.div_lt_upper_bound; lia. }
  assert (0 <= y / 2 <= b - 1) as HY.
  { split; [apply Z.div_pos; lia|].
    apply Z.lt_le_pred, Z.div_lt_upper_bound; lia. }
  set (X := x / 2) in *. set (Y := y / 2) in *.
  clearbody a b X Y. unfold INT_MAX in *.
  assert (0 <= Y * width) by (apply Z.mul_nonneg_nonneg; lia).
  assert (Y * width <= (b - 1) * width) by (apply Z.mul_le_mono_nonneg_r; lia).
  assert ((b - 1) * width + 2 * a = a * height) by lia.
  int_small. lia.
Qed.

Lemma luma_index_valid width height x y :
  0 <= x < width -> 0 <= y < height -> 0 <= y * width + x < width * height.
Proof.
  intros Hx Hy.
  assert (0 <= y * width) by (apply Z.mul_nonneg_nonneg; lia).
  assert ((y + 1) * width <= height * width) by (apply Z.mul_le_mono_nonneg_r; lia).
  lia.
Qed.

Lemma read_chroma_roles APPLE uvData offset first second :
  read uvData offset = Some first ->
  read uvData (int_add offset 1) = Some second ->
  read_chroma APPLE uvData offset =
  Some (if APPLE then (first, second) else (second, first)).
Proof. intros E1 E2. unfold read_chroma. rewrite E1, E2. now destruct APPLE. Qed.

Lemma pixel_word_valid APPLE yData uvData width height uv_flipped x y :
  valid_frame yData uvData width height ->
  0 <= x < width -> 0 <= y < height ->
  exists nY first second,
    read yData (y * width + x) = Some nY /\
    read uvData (spec_offset width y x) = Some first /\
    read uvData (spec_offset width y x + 1) = Some second /\
    pixel_word APPLE yData uvData width uv_flipped (y * width + x) y x =
    Some (let '(U, V) := spec_roles APPLE uv_flipped first second in
          YUV2RGB nY U V).
Proof.
  intros [Hd Hl Hc] Hx Hy.
  destruct (chroma_offset_valid _ _ _ _ Hd Hx Hy) as (Eo & Eo1 & Ho & Ho1).
  pose proof (luma_index_valid _ _ _ _ Hx Hy) as Hp.
  destruct (read_in_bounds yData (y * width + x)) as [nY EY]; [lia|].
  destruct (read_in_bounds uvData (spec_offset width y x)) as [first E1]; [lia|].
  destruct (read_in_bounds uvData (spec_offset width y x + 1)) as [second E2]; [lia|].
  exists nY, first, second. repeat split; try assumption.
  unfold pixel_word. rewrite EY. simpl.
  rewrite (read_chroma_roles APPLE uvData _ first second)
    by (rewrite ?Eo1, ?Eo; assumption).
  unfold spec_roles. now destruct APPLE, uv_flipped.
Qed.

(** On a valid frame the conversion completes, stores [width * height]
    words, and the word at raster position [y * width + x] is the colour of
    the luma sample there and of the chroma pair at
    [(y >> 1) * width + 2 * (x >> 1)]. *)
Lemma convert_valid APPLE yData uvData width height uv_flipped :
  valid_frame yData uvData width height ->
  exists ws,
    ConvertYUV420SPToARGB8888 APPLE yData uvData width height uv_flipped = Some ws /\
    Z.of_nat (length ws) = width * height /\
    forall x y, 0 <= x < width -> 0 <= y < height ->
      exists nY first second,
        read yData (y * width + x) = Some nY /\
        read uvData (spec_offset width y x) = Some first /\
        read uvData (spec_offset width y x + 1) = Some second /\
        ws !! Z.to_nat (y * width + x) =
        Some (let '(U, V) := spec_roles APPLE uv_flipped first second in
              YUV2RGB nY U V).
Proof.
  intros Hv.
  destruct (convert_total APPLE yData uvData width uv_flipped height) as [ws E].
  { intros x y Hx Hy.
    destruct (pixel_word_valid APPLE _ _ _ _ uv_flipped x y Hv Hx Hy)
      as (nY & first & second & _ & _ & _ & ->).
    eexists; reflexivity. }
  exists ws. split; [exact E|].
  destruct (convert_lookup _ _ _ _ _ _ _ E) as [Hlen Hpix].
  pose proof (width_pos _ _ (frame_dims _ _ _ _ Hv)).
  pose proof (height_pos _ _ (frame_dims _ _ _ _ Hv)).
  split; [rewrite Hlen; lia|].
  intros x y Hx Hy.
  destruct (pixel_word_valid APPLE _ _ _ _ uv_flipped x y Hv Hx Hy)
    as (nY & first & second & EY & E1 & E2 & Ew).
  destruct (Hpix x y Hx Hy) as (w & Ew' & Lw).
  exists nY, first, second. repeat split; try assumption.
  rewrite Lw, <- Ew'. exact Ew.
Qed.

Lemma loop_words_Forall (P : Z -> Prop) G c :
  (forall i p ws, G i p = Some ws -> Forall P ws) ->
  forall n i p ws, loop_words G c n i p = Some ws -> Forall P ws.
Proof.
  intros HG. induction n as [|n IH]; intros i p ws H.
  - injection H as <-. constructor.
  - cbn [loop_words] in H.
    destruct (G i p) as [w0|] eqn:E0; [|discriminate]. simpl in H.
    destruct (loop_words G c n (i + 1) (p + c)) as [rest|] eqn:Er; [|discriminate].
    injection H as <-. apply Forall_app. eauto.
Qed.

Lemma pixel_word_YUV2RGB APPLE yData uvData width uv_flipped p y x w :
  pixel_word APPLE yData uvData width uv_flipped p y x = Some w ->
  exists nY nU nV, w = YUV2RGB nY nU nV.
Proof.
  unfold pixel_word. destruct (read yData p) as [nY|]; [|discriminate]. simpl.
  destruct (read_chroma APPLE uvData _) as [[nU nV]|]; [|discriminate]. simpl.
  intros [= <-]. destruct uv_flipped; eauto.
Qed.

(** Every word of a completed conversion is a result of [YUV2RGB]. *)
Lemma convert_words_YUV2RGB APPLE yData uvData width height uv_flipped ws :
  ConvertYUV420SPToARGB8888 APPLE yData uvData width height uv_flipped = Some ws ->
  Forall (fun w => exists nY nU nV, w = YUV2RGB nY nU nV) ws.
Proof.
  rewrite convert_frame_words. unfold frame_words.
  apply loop_words_Forall. intros y p row. unfold row_words.
  apply loop_words_Forall. intros x q l E.
  destruct (pixel_word _ _ _ _ _ _ _ _) as [w|] eqn:Ew; [|discriminate].
  injection E as <-. repeat constructor. eapply pixel_word_YUV2RGB, Ew.
Qed.

(** Discharges the validity of a concrete frame. *)
Ltac frame_is_valid :=
  repeat constructor; try reflexivity; now vm_compute.

(** * The claims *)

(** C1: on a valid frame, the word ConvertYUV420SPToARGB8888 stores for the
    pixel (x, y) is exactly the word of the fixed-point recipe of the
    specification applied to the luma sample Y[y*width+x] and to the chroma
    pair at (y>>1)*width + 2*(x>>1): Y' = max(Y-16, 0), U' = U-128,
    V' = V-128, R = 1192 Y' + 1634 V', G = 1192 Y' - 833 V' - 400 U',
    B = 1192 Y' + 2066 U', each clamped to [0, 262143], shifted right by 10,
    masked to 8 bits, and packed as 0xFF000000 | R<<16 | G<<8 | B. *)
Theorem convert_pixel_is_recipe APPLE yData uvData width height uv_flipped x y :
  valid_frame yData uvData width height ->
  0 <= x < width -> 0 <= y < height ->
  exists ws nY first second,
    ConvertYUV420SPToARGB8888 APPLE yData uvData width height uv_flipped = Some ws /\
    read yData (y * width + x) = Some nY /\
    read uvData (spec_offset width y x) = Some first /\
    read uvData (spec_offset width y x + 1) = Some second /\
    ws !! Z.to_nat (y * width + x) =
    Some (let '(U, V) := spec_roles APPLE uv_flipped first second in
          spec_argb nY U V).
Proof.
  intros Hv Hx Hy.
  destruct (convert_valid APPLE _ _ _ _ uv_flipped Hv) as (ws & E & _ & Hpix).
  destruct (Hpix x y Hx Hy) as (nY & first & second & EY & E1 & E2 & Ew).
  exists ws, nY, first, second. repeat split; try assumption.
  rewrite Ew. f_equal.
  pose proof (read_range _ _ _ EY). pose proof (read_range _ _ _ E1).
  pose proof (read_range _ _ _ E2).
  destruct (spec_roles APPLE uv_flipped first second) as [U V] eqn:Er.
  unfold spec_roles in Er.
  destruct (xorb APPLE uv_flipped); injection Er as <- <-;
    now apply YUV2RGB_spec_argb.
Qed.

Lemma convert_pixel_is_recipe_witness :
  valid_frame [Byte.x10; Byte.xeb; Byte.x51; Byte.xff] [Byte.xf0; Byte.x5a] 2 2 /\
  0 <= 1 < 2 /\ 0 <= 1 < 2 /\
  exists ws nY first second,
    ConvertYUV420SPToARGB8888 false
      [Byte.x10; Byte.xeb; Byte.x51; Byte.xff] [Byte.xf0; Byte.x5a] 2 2 false
    = Some ws /\
    read [Byte.x10; Byte.xeb; Byte.x51; Byte.xff] (1 * 2 + 1) = Some nY /\
    read [Byte.xf0; Byte.x5a] (spec_offset 2 1 1) = Some first /\
    read [Byte.xf0; Byte.x5a] (spec_offset 2 1 1 + 1) = Some second /\
    ws !! Z.to_nat (1 * 2 + 1) =
    Some (let '(U, V) := spec_roles false false first second in
          spec_argb nY U V).
Proof.
  split; [frame_is_valid|]. split; [lia|]. split; [lia|].
  apply (convert_pixel_is_recipe false
           [Byte.x10; Byte.xeb; Byte.x51; Byte.xff] [Byte.xf0; Byte.x5a]
           2 2 false 1 1); [frame_is_valid|lia|lia].
Defined.

(** C2: every 32-bit pixel ConvertYUV420SPToARGB8888 writes has its high
    (alpha) byte equal to 0xFF, whatever the input samples; and on every
    valid frame the conversion completes and writes width*height pixels. *)
Theorem convert_alpha_opaque APPLE yData uvData width height uv_flipped :
  (valid_frame yData uvData width height ->
   exists ws,
     ConvertYUV420SPToARGB8888 APPLE yData uvData width height uv_flipped = Some ws /\
     Z.of_nat (length ws) = width * height) /\
  (forall ws,
     ConvertYUV420SPToARGB8888 APPLE yData uvData width height uv_flipped = Some ws ->
     forall i w, ws !! i = Some w -> 0 <= w < 4294967296 /\ alpha w = 255).
Proof.
  split.
  - intros Hv.
    destruct (convert_valid APPLE _ _ _ _ uv_flipped Hv) as (ws & E & L & _).
    eauto.
  - intros ws E i w Hi.
    pose proof (convert_words_YUV2RGB _ _ _ _ _ _ _ E) as HF.
    rewrite Forall_lookup in HF.
    destruct (HF i w Hi) as (nY & nU & nV & ->).
    apply high_byte_word, YUV2RGB_high_byte.
Qed.

Lemma convert_alpha_opaque_witness :
  valid_frame [Byte.x10; Byte.xeb; Byte.x51; Byte.xff] [Byte.xf0; Byte.x5a] 2 2 /\
  (exists ws,
     ConvertYUV420SPToARGB8888 false
       [Byte.x10; Byte.xeb; Byte.x51; Byte.xff] [Byte.xf0; Byte.x5a] 2 2 false
     = Some ws /\
     Z.of_nat (length ws) = 2 * 2) /\
  (ConvertYUV420SPToARGB8888 false
     [Byte.x10; Byte.xeb; Byte.x51; Byte.xff] [Byte.xf0; Byte.x5a] 2 2 false
   = Some [4289855488; 4294947506; 4294836224; 4294953417] /\
   [4289855488; 4294947506; 4294836224; 4294953417] !! 2%nat = Some 4294836224 /\
   0 <= 4294836224 < 4294967296 /\ alpha 4294836224 = 255).
Proof.
  pose proof (convert_alpha_opaque false
    [Byte.x10; Byte.xeb; Byte.x51; Byte.xff] [Byte.xf0; Byte.x5a] 2 2 false)
    as [Hrun Halpha].
  split; [frame_is_valid|]. split; [apply Hrun; frame_is_valid|].
  split; [reflexivity|]. split; [reflexivity|].
  apply (Halpha [4289855488; 4294947506; 4294836224; 4294953417]
           ltac:(reflexivity) 2%nat 4294836224 ltac:(reflexivity)).
Defined.

(** C5: the per-pixel conversion maps Y=16, U=128, V=128 to exactly
    RGB (0,0,0), the packed black pixel 0xFF000000, and Y=235, U=128, V=128
    to RGB (254,254,254), one level below (255,255,255) in each channel
    because the shift truncates; the converter does the same on frames made
    of these samples. *)
Theorem known_vectors :
  (YUV2RGB 16 128 128 = 4278190080 /\
   red (YUV2RGB 16 128 128) = 0 /\
   green (YUV2RGB 16 128 128) = 0 /\
   blue (YUV2RGB 16 128 128) = 0) /\
  (YUV2RGB 235 128 128 = 4294901502 /\
   red (YUV2RGB 235 128 128) = 254 /\
   green (YUV2RGB 235 128 128) = 254 /\
   blue (YUV2RGB 235 128 128) = 254 /\
   Z.abs (255 - red (YUV2RGB 235 128 128)) <= 1 /\
   Z.abs (255 - green (YUV2RGB 235 128 128)) <= 1 /\
   Z.abs (255 - blue (YUV2RGB 235 128 128)) <= 1) /\
  (forall APPLE uv_flipped,
     ConvertYUV420SPToARGB8888 APPLE
       [Byte.x10; Byte.x10; Byte.x10; Byte.x10] [Byte.x80; Byte.x80] 2 2 uv_flipped
     = Some [4278190080; 4278190080; 4278190080; 4278190080] /\
     ConvertYUV420SPToARGB8888 APPLE
       [Byte.xeb; Byte.xeb; Byte.xeb; Byte.xeb] [Byte.x80; Byte.x80] 2 2 uv_flipped
     = Some [4294901502; 4294901502; 4294901502; 4294901502]).
Proof.
  split; [repeat split; reflexivity|].
  split; [repeat split; try reflexivity; now vm_compute|].
  intros [] []; split; reflexivity.
Qed.

Lemma channels_low_luma nY nU nV :
  0 <= nY <= 16 -> channels nY nU nV = channels 16 nU nV.
Proof.
  intros H. unfold channels.
  assert ((if int_sub nY 16 <? 0 then 0 else int_sub nY 16) = 0) as ->.
  { unfold int_sub. int_small. destruct (Z.ltb_spec (nY - 16) 0); lia. }
  reflexivity.
Qed.

(** C9: all luma values at or below 16 are crushed to the same output: for
    every nY in [0, 16] and every chroma pair (nU, nV),
    YUV2RGB(nY, nU, nV) = YUV2RGB(16, nU, nV), and with U = V = 128 the
    result is the opaque black pixel 0xFF000000. *)
Theorem low_luma_crushed nY nU nV :
  0 <= nY <= 16 ->
  YUV2RGB nY nU nV = YUV2RGB 16 nU nV /\
  YUV2RGB nY 128 128 = 4278190080.
Proof.
  intros H. unfold YUV2RGB. rewrite !(channels_low_luma nY) by exact H.
  split; reflexivity.
Qed.

Lemma low_luma_crushed_witness :
  0 <= 7 <= 16 /\
  YUV2RGB 7 90 240 = YUV2RGB 16 90 240 /\
  YUV2RGB 7 128 128 = 4278190080.
Proof. split; [lia|]. apply (low_luma_crushed 7 90 240). lia. Defined.

(** C10: in YUV2RGB the 8-bit mask after the shift is redundant: a channel
    is clamped to [0, 262143] before it is shifted, so (n >> 10) & 0xff
    equals n >> 10 and lies in [0, 255], for each of the three channels, and
    YUV2RGB returns the same word without the mask. *)
Theorem mask_after_shift_redundant nY nU nV :
  (forall n,
     0 <= clamp_channel n <= 262143 /\
     Z.land (int_shr (clamp_channel n) 10) 255 = int_shr (clamp_channel n) 10 /\
     0 <= int_shr (clamp_channel n) 10 <= 255) /\
  let '(nR, nG, nB) := channels nY nU nV in
  (normalize nR = int_shr nR 10 /\ 0 <= int_shr nR 10 <= 255) /\
  (normalize nG = int_shr nG 10 /\ 0 <= int_shr nG 10 <= 255) /\
  (normalize nB = int_shr nB 10 /\ 0 <= int_shr nB 10 <= 255) /\
  YUV2RGB nY nU nV = pack (int_shr nR 10) (int_shr nG 10) (int_shr nB 10).
Proof.
  split.
  - intros n. pose proof (clamp_channel_range n) as H.
    split; [exact H|]. split; [apply (normalize_shift _ H)|].
    apply shiftr_10_byte, H.
  - unfold YUV2RGB. pose proof (channels_range nY nU nV) as H.
    destruct (channels nY nU nV) as [[nR nG] nB]. destruct H as (HR & HG & HB).
    unfold int_shr. rewrite !normalize_shift by assumption.
    repeat split; try reflexivity; apply shiftr_10_byte; assumption.
Qed.

(** ** Exchanging U and V in the chroma plane *)

Lemma swap_uv_pair k : forall uv : list byte,
  (a ← swap_uv uv !! (2 * k)%nat; b ← swap_uv uv !! S (2 * k); Some (a, b)) =
  (a ← uv !! (2 * k)%nat; b ← uv !! S (2 * k); Some (b, a)).
Proof.
  induction k as [|k IH]; intros [|a [|b rest]]; try reflexivity.
  replace (2 * S k)%nat with (S (S (2 * k))) by lia. apply (IH rest).
Qed.

Lemma read_pair_swap uv off :
  Z.even off = true ->
  (a ← read (swap_uv uv) off; b ← read (swap_uv uv) (off + 1); Some (a, b)) =
  (a ← read uv off; b ← read uv (off + 1); Some (b, a)).
Proof.
  intros He. destruct (Z.lt_ge_cases off 0) as [Hneg|Hpos].
  - now rewrite !(read_negative _ off) by exact Hneg.
  - apply Z.even_spec in He as [h ->].
    pose proof (swap_uv_pair (Z.to_nat h) uv) as H.
    unfold read. destruct (decide (0 <= 2 * h)); [|lia].
    destruct (decide (0 <= 2 * h + 1)); [|lia].
    replace (Z.to_nat (2 * h)) with (2 * Z.to_nat h)%nat by lia.
    replace (Z.to_nat (2 * h + 1)) with (S (2 * Z.to_nat h)) by lia.
    destruct (swap_uv uv !! (2 * Z.to_nat h)%nat),
             (swap_uv uv !! S (2 * Z.to_nat h)),
             (uv !! (2 * Z.to_nat h)%nat),
             (uv !! S (2 * Z.to_nat h)); simpl in *; congruence.
Qed.

Lemma chroma_offset_even width y x :
  Z.even width = true -> Z.even (chroma_offset width y x) = true.
Proof.
  intros He. unfold chroma_offset, int_add, int_mul.
  rewrite wrap_int_even, Z.even_add, !wrap_int_even, !Z.even_mul, He.
  now rewrite orb_true_r.
Qed.

Lemma int_add_1_even off :
  is_int off -> Z.even off = true -> int_add off 1 = off + 1.
Proof.
  unfold is_int, INT_MIN, INT_MAX. intros Hi He.
  apply Z.even_spec in He as [h ->]. unfold int_add. int_small. reflexivity.
Qed.

Lemma read_chroma_swap APPLE uv off :
  is_int off -> Z.even off = true ->
  read_chroma APPLE (swap_uv uv) off =
  (fun '(nU, nV) => (nV, nU)) <$> read_chroma APPLE uv off.
Proof.
  intros Hi He. pose proof (read_pair_swap uv off He) as H.
  unfold read_chroma. rewrite (int_add_1_even off Hi He).
  destruct (read (swap_uv uv) off), (read (swap_uv uv) (off + 1)),
           (read uv off), (read uv (off + 1)), APPLE; simpl in *; congruence.
Qed.

Lemma pixel_word_swap APPLE yData uvData width p y x :
  Z.even width = true ->
  pixel_word APPLE yData (swap_uv uvData) width false p y x =
  pixel_word APPLE yData uvData width true p y x.
Proof.
  intros He. unfold pixel_word.
  rewrite read_chroma_swap
    by (apply wrap_int_is_int || apply chroma_offset_even, He).
  destruct (read yData p) as [nY|]; [|reflexivity]. simpl.
  destruct (read_chroma APPLE uvData _) as [[nU nV]|]; reflexivity.
Qed.

Lemma loop_words_ext G G' c n :
  (forall i p, G i p = G' i p) ->
  forall i p, loop_words G c n i p = loop_words G' c n i p.
Proof.
  intros H. induction n as [|n IH]; intros i p; [reflexivity|].
  cbn [loop_words]. now rewrite H, IH.
Qed.

(** C4: on every frame of even width, calling ConvertYUV420SPToARGB8888 with
    uvFlipped=true produces the output of first swapping the U and V sample
    values at each pair position of the interleaved UV plane and then calling
    it with uvFlipped=false, including the case where a read falls outside
    the buffers. *)
Theorem uv_flipped_is_swapped_plane APPLE yData uvData width height :
  Z.even width = true ->
  ConvertYUV420SPToARGB8888 APPLE yData uvData width height true =
  ConvertYUV420SPToARGB8888 APPLE yData (swap_uv uvData) width height false.
Proof.
  intros He. rewrite !convert_frame_words. unfold frame_words.
  apply loop_words_ext. intros y p. unfold row_words.
  apply loop_words_ext. intros x q.
  now rewrite pixel_word_swap.
Qed.

Lemma uv_flipped_is_swapped_plane_witness :
  Z.even 4 = true /\
  ConvertYUV420SPToARGB8888 false
    [Byte.x10; Byte.xeb; Byte.x51; Byte.xff; Byte.x29; Byte.x90; Byte.x00; Byte.x7f]
    [Byte.xf0; Byte.x5a; Byte.x22; Byte.xc8] 4 2 true =
  ConvertYUV420SPToARGB8888 false
    [Byte.x10; Byte.xeb; Byte.x51; Byte.xff; Byte.x29; Byte.x90; Byte.x00; Byte.x7f]
    (swap_uv [Byte.xf0; Byte.x5a; Byte.x22; Byte.xc8]) 4 2 false.
Proof.
  split; [reflexivity|].
  apply (uv_flipped_is_swapped_plane false
    [Byte.x10; Byte.xeb; Byte.x51; Byte.xff; Byte.x29; Byte.x90; Byte.x00; Byte.x7f]
    [Byte.xf0; Byte.x5a; Byte.x22; Byte.xc8] 4 2).
  reflexivity.
Defined.

(** The evenness of the width cannot be dropped: with width 3 the chroma
    offset of the second block row is odd and straddles two pairs. *)
Example uv_flipped_odd_width :
  ConvertYUV420SPToARGB8888 false
    [Byte.x10; Byte.xeb; Byte.x51; Byte.xff; Byte.x29; Byte.x90;
     Byte.x00; Byte.x7f; Byte.x10; Byte.xeb; Byte.x51; Byte.xff]
    [Byte.xf0; Byte.x5a; Byte.x22; Byte.xc8; Byte.x00; Byte.x10; Byte.x20; Byte.x30]
    3 4 true <>
  ConvertYUV420SPToARGB8888 false
    [Byte.x10; Byte.xeb; Byte.x51; Byte.xff; Byte.x29; Byte.x90;
     Byte.x00; Byte.x7f; Byte.x10; Byte.xeb; Byte.x51; Byte.xff]
    (swap_uv [Byte.xf0; Byte.x5a; Byte.x22; Byte.xc8;
              Byte.x00; Byte.x10; Byte.x20; Byte.x30])
    3 4 false.
Proof. now vm_compute. Qed.

(** ** Blocks of two by two pixels *)

Lemma half_block j d : 0 <= d <= 1 -> Z.shiftr (2 * j + d) 1 = j.
Proof.
  intros H. rewrite shiftr_1_half. symmetry.
  apply Z.div_unique with d; lia.
Qed.

Lemma spec_offset_block width i j dx dy :
  0 <= dx <= 1 -> 0 <= dy <= 1 ->
  spec_offset width (2 * j + dy) (2 * i + dx) = j * width + 2 * i.
Proof. intros Hx Hy. unfold spec_offset. now rewrite !half_block. Qed.

Lemma block_in_frame n i d :
  Z.even n = true -> 0 <= 2 * i < n -> 0 <= d <= 1 -> 0 <= 2 * i + d < n.
Proof. intros He Hi Hd. apply Z.even_spec in He as [h ->]. lia. Qed.

(** C6: on a valid frame, the chroma pair of every pixel (x, y) is read at
    offset (y>>1)*width + 2*(x>>1), so the four pixels of each 2x2-aligned
    luma block are converted with one and the same chroma pair and their own
    luma sample; in a frame of width 2 and height 2 the four output pixels
    are YUV2RGB of the four luma samples with a single chroma pair. *)
Theorem chroma_shared_by_block APPLE yData uvData width height uv_flipped :
  valid_frame yData uvData width height ->
  exists ws,
    ConvertYUV420SPToARGB8888 APPLE yData uvData width height uv_flipped = Some ws /\
    (forall x y, 0 <= x < width -> 0 <= y < height ->
       chroma_offset width y x = Z.shiftr y 1 * width + 2 * Z.shiftr x 1) /\
    (forall i j, 0 <= 2 * i < width -> 0 <= 2 * j < height ->
       exists first second,
         read uvData (j * width + 2 * i) = Some first /\
         read uvData (j * width + 2 * i + 1) = Some second /\
         forall dx dy, 0 <= dx <= 1 -> 0 <= dy <= 1 ->
           chroma_offset width (2 * j + dy) (2 * i + dx) = j * width + 2 * i /\
           exists nY,
             read yData ((2 * j + dy) * width + (2 * i + dx)) = Some nY /\
             ws !! Z.to_nat ((2 * j + dy) * width + (2 * i + dx)) =
             Some (let '(U, V) := spec_roles APPLE uv_flipped first second in
                   YUV2RGB nY U V)) /\
    (width = 2 -> height = 2 ->
       exists first second n0 n1 n2 n3,
         read uvData 0 = Some first /\ read uvData 1 = Some second /\
         read yData 0 = Some n0 /\ read yData 1 = Some n1 /\
         read yData 2 = Some n2 /\ read yData 3 = Some n3 /\
         ws = (let '(U, V) := spec_roles APPLE uv_flipped first second in
               [YUV2RGB n0 U V; YUV2RGB n1 U V; YUV2RGB n2 U V; YUV2RGB n3 U V])).
Proof.
  intros Hv.
  destruct (convert_valid APPLE _ _ _ _ uv_flipped Hv) as (ws & E & L & Hpix).
  pose proof (frame_dims _ _ _ _ Hv) as Hd.
  assert (forall i j, 0 <= 2 * i < width -> 0 <= 2 * j < height ->
     exists first second,
       read uvData (j * width + 2 * i) = Some first /\
       read uvData (j * width + 2 * i + 1) = Some second /\
       forall dx dy, 0 <= dx <= 1 -> 0 <= dy <= 1 ->
         chroma_offset width (2 * j + dy) (2 * i + dx) = j * width + 2 * i /\
         exists nY,
           read yData ((2 * j + dy) * width + (2 * i + dx)) = Some nY /\
           ws !! Z.to_nat ((2 * j + dy) * width + (2 * i + dx)) =
           Some (let '(U, V) := spec_roles APPLE uv_flipped first second in
                 YUV2RGB nY U V)) as Hblock.
  { intros i j Hi Hj.
    destruct (Hpix (2 * i + 0) (2 * j + 0)) as (n & first & second & _ & E1 & E2 & _);
      [apply block_in_frame; (apply Hd || lia)..|].
    rewrite spec_offset_block in E1, E2 by lia.
    exists first, second. split; [exact E1|]. split; [exact E2|].
    intros dx dy Hdx Hdy.
    pose proof (block_in_frame _ _ _ (width_even _ _ Hd) Hi Hdx) as Hx.
    pose proof (block_in_frame _ _ _ (height_even _ _ Hd) Hj Hdy) as Hy.
    destruct (chroma_offset_valid _ _ _ _ Hd Hx Hy) as (Eo & _).
    rewrite spec_offset_block in Eo by assumption. split; [exact Eo|].
    destruct (Hpix _ _ Hx Hy) as (nY & f' & s' & EY & E1' & E2' & Ew).
    rewrite spec_offset_block in E1', E2' by assumption.
    assert (f' = first) as -> by congruence.
    assert (s' = second) as -> by congruence.
    exists nY. split; [exact EY|exact Ew]. }
  exists ws. split; [exact E|]. split; [|split; [exact Hblock|]].
  - intros x y Hx Hy. apply (chroma_offset_valid _ _ _ _ Hd Hx Hy).
  - intros -> ->.
    destruct (Hblock 0 0) as (first & second & EF & ES & Hb); [lia|lia|].
    destruct (Hb 0 0) as (_ & n0 & E0 & L0); [lia|lia|].
    destruct (Hb 1 0) as (_ & n1 & E1 & L1); [lia|lia|].
    destruct (Hb 0 1) as (_ & n2 & E2 & L2); [lia|lia|].
    destruct (Hb 1 1) as (_ & n3 & E3 & L3); [lia|lia|].
    exists first, second, n0, n1, n2, n3. repeat split; try assumption.
    destruct (spec_roles APPLE uv_flipped first second) as [U V].
    destruct ws as [|w0 [|w1 [|w2 [|w3 [|w4 ws]]]]]; simpl in L; try lia.
    simpl in L0, L1, L2, L3. congruence.
Qed.

Lemma chroma_shared_by_block_witness :
  valid_frame [Byte.x10; Byte.xeb; Byte.x51; Byte.xff] [Byte.xf0; Byte.x5a] 2 2 /\
  exists ws,
    ConvertYUV420SPToARGB8888 false
      [Byte.x10; Byte.xeb; Byte.x51; Byte.xff] [Byte.xf0; Byte.x5a] 2 2 false
    = Some ws /\
    (forall x y, 0 <= x < 2 -> 0 <= y < 2 ->
       chroma_offset 2 y x = Z.shiftr y 1 * 2 + 2 * Z.shiftr x 1) /\
    (forall i j, 0 <= 2 * i < 2 -> 0 <= 2 * j < 2 ->
       exists first second,
         read [Byte.xf0; Byte.x5a] (j * 2 + 2 * i) = Some first /\
         read [Byte.xf0; Byte.x5a] (j * 2 + 2 * i + 1) = Some second /\
         forall dx dy, 0 <= dx <= 1 -> 0 <= dy <= 1 ->
           chroma_offset 2 (2 * j + dy) (2 * i + dx) = j * 2 + 2 * i /\
           exists nY,
             read [Byte.x10; Byte.xeb; Byte.x51; Byte.xff]
               ((2 * j + dy) * 2 + (2 * i + dx)) = Some nY /\
             ws !! Z.to_nat ((2 * j + dy) * 2 + (2 * i + dx)) =
             Some (let '(U, V) := spec_roles false false first second in
                   YUV2RGB nY U V)) /\
    (2 = 2 -> 2 = 2 ->
       exists first second n0 n1 n2 n3,
         read [Byte.xf0; Byte.x5a] 0 = Some first /\
         read [Byte.xf0; Byte.x5a] 1 = Some second /\
         read [Byte.x10; Byte.xeb; Byte.x51; Byte.xff] 0 = Some n0 /\
         read [Byte.x10; Byte.xeb; Byte.x51; Byte.xff] 1 = Some n1 /\
         read [Byte.x10; Byte.xeb; Byte.x51; Byte.xff] 2 = Some n2 /\
         read [Byte.x10; Byte.xeb; Byte.x51; Byte.xff] 3 = Some n3 /\
         ws = (let '(U, V) := spec_roles false false first second in
               [YUV2RGB n0 U V; YUV2RGB n1 U V; YUV2RGB n2 U V; YUV2RGB n3 U V])).
Proof.
  split; [frame_is_valid|].
  apply (chroma_shared_by_block false
           [Byte.x10; Byte.xeb; Byte.x51; Byte.xff] [Byte.xf0; Byte.x5a]
           2 2 false).
  frame_is_valid.
Defined.

(** ** Dependence of a pixel on the input *)

Lemma read_agree buf1 buf2 i :
  0 <= i -> buf1 !! Z.to_nat i = buf2 !! Z.to_nat i -> read buf1 i = read buf2 i.
Proof. intros Hi H. unfold read. now rewrite H. Qed.

(** C8: the output pixel at (x, y) depends only on the luma byte
    Y[y*width+x] and on the two chroma bytes UV[off] and UV[off+1] with
    off = (y>>1)*width + 2*(x>>1): two valid frames of the same dimensions
    that agree on those three bytes are converted to the same 32-bit word at
    (x, y), whatever their other bytes. *)
Theorem pixel_depends_on_three_bytes APPLE yData1 uvData1 yData2 uvData2
    width height uv_flipped x y :
  valid_frame yData1 uvData1 width height ->
  valid_frame yData2 uvData2 width height ->
  0 <= x < width -> 0 <= y < height ->
  yData1 !! Z.to_nat (y * width + x) = yData2 !! Z.to_nat (y * width + x) ->
  uvData1 !! Z.to_nat (Z.shiftr y 1 * width + 2 * Z.shiftr x 1) =
  uvData2 !! Z.to_nat (Z.shiftr y 1 * width + 2 * Z.shiftr x 1) ->
  uvData1 !! Z.to_nat (Z.shiftr y 1 * width + 2 * Z.shiftr x 1 + 1) =
  uvData2 !! Z.to_nat (Z.shiftr y 1 * width + 2 * Z.shiftr x 1 + 1) ->
  exists ws1 ws2 w,
    ConvertYUV420SPToARGB8888 APPLE yData1 uvData1 width height uv_flipped = Some ws1 /\
    ConvertYUV420SPToARGB8888 APPLE yData2 uvData2 width height uv_flipped = Some ws2 /\
    ws1 !! Z.to_nat (y * width + x) = Some w /\
    ws2 !! Z.to_nat (y * width + x) = Some w.
Proof.
  intros Hv1 Hv2 Hx Hy HY HU HV.
  destruct (convert_valid APPLE _ _ _ _ uv_flipped Hv1) as (ws1 & E1 & _ & Hp1).
  destruct (convert_valid APPLE _ _ _ _ uv_flipped Hv2) as (ws2 & E2 & _ & Hp2).
  destruct (Hp1 x y Hx Hy) as (n1 & f1 & s1 & EY1 & EF1 & ES1 & L1).
  destruct (Hp2 x y Hx Hy) as (n2 & f2 & s2 & EY2 & EF2 & ES2 & L2).
  pose proof (luma_index_valid _ _ _ _ Hx Hy) as Hp.
  destruct (chroma_offset_valid _ _ _ _ (frame_dims _ _ _ _ Hv1) Hx Hy)
    as (_ & _ & Ho & _).
  unfold spec_offset in *.
  rewrite (read_agree yData1 yData2) in EY1 by (lia || exact HY).
  rewrite (read_agree uvData1 uvData2) in EF1 by (lia || exact HU).
  rewrite (read_agree uvData1 uvData2) in ES1 by (lia || exact HV).
  assert (n1 = n2) as -> by congruence.
  assert (f1 = f2) as -> by congruence.
  assert (s1 = s2) as -> by congruence.
  eauto 10.
Qed.

Lemma pixel_depends_on_three_bytes_witness :
  valid_frame [Byte.x10; Byte.xeb; Byte.x51; Byte.xff] [Byte.xf0; Byte.x5a] 2 2 /\
  valid_frame [Byte.x00; Byte.x01; Byte.x02; Byte.xff; Byte.x33]
              [Byte.xf0; Byte.x5a; Byte.x77] 2 2 /\
  0 <= 1 < 2 /\ 0 <= 1 < 2 /\
  exists ws1 ws2 w,
    ConvertYUV420SPToARGB8888 false
      [Byte.x10; Byte.xeb; Byte.x51; Byte.xff] [Byte.xf0; Byte.x5a] 2 2 true
    = Some ws1 /\
    ConvertYUV420SPToARGB8888 false
      [Byte.x00; Byte.x01; Byte.x02; Byte.xff; Byte.x33]
      [Byte.xf0; Byte.x5a; Byte.x77] 2 2 true
    = Some ws2 /\
    ws1 !! Z.to_nat (1 * 2 + 1) = Some w /\
    ws2 !! Z.to_nat (1 * 2 + 1) = Some w.
Proof.
  split; [frame_is_valid|]. split; [frame_is_valid|].
  split; [lia|]. split; [lia|].
  apply (pixel_depends_on_three_bytes false
           [Byte.x10; Byte.xeb; Byte.x51; Byte.xff] [Byte.xf0; Byte.x5a]
           [Byte.x00; Byte.x01; Byte.x02; Byte.xff; Byte.x33]
           [Byte.xf0; Byte.x5a; Byte.x77] 2 2 true 1 1);
    first [frame_is_valid | lia | reflexivity].
Defined.

(** ** Colours the conversion never produces *)

Lemma land_255_shiftl r k : 8 <= k -> Z.land (Z.shiftl r k) 255 = 0.
Proof.
  intros Hk. change 255 with (Z.ones 8).
  rewrite Z.land_ones, Z.shiftl_mul_pow2 by lia.
  replace k with (k - 8 + 8) by lia. rewrite Z.pow_add_r by lia.
  rewrite Z.mul_assoc. apply Z.mod_mul. now vm_compute.
Qed.

Lemma pack_red r g b :
  0 <= r <= 255 -> 0 <= g <= 255 -> 0 <= b <= 255 -> red (pack r g b) = r.
Proof.
  intros Hr Hg Hb. rewrite pack_lor by assumption. unfold red.
  rewrite !Z.shiftr_lor, !Z.land_lor_distr_l.
  rewrite (Z.shiftr_shiftl_r r 16 16), (Z.shiftr_shiftl_r g 8 16) by lia.
  rewrite (shiftr_byte_0 g (16 - 8)), (shiftr_byte_0 b 16) by lia.
  change (16 - 16) with 0. rewrite Z.shiftr_0_r, (land_255_byte r) by assumption.
  change (Z.land (Z.shiftr 4278190080 16) 255) with 0. change (Z.land 0 255) with 0.
  now rewrite !Z.lor_0_r.
Qed.

Lemma pack_green r g b :
  0 <= r <= 255 -> 0 <= g <= 255 -> 0 <= b <= 255 -> green (pack r g b) = g.
Proof.
  intros Hr Hg Hb. rewrite pack_lor by assumption. unfold green.
  rewrite !Z.shiftr_lor, !Z.land_lor_distr_l.
  rewrite (Z.shiftr_shiftl_l r 16 8), (Z.shiftr_shiftl_r g 8 8) by lia.
  rewrite (shiftr_byte_0 b 8), (land_255_shiftl r (16 - 8)) by lia.
  change (8 - 8) with 0. rewrite Z.shiftr_0_r, (land_255_byte g) by assumption.
  change (Z.land (Z.shiftr 4278190080 8) 255) with 0. change (Z.land 0 255) with 0.
  now rewrite !Z.lor_0_r.
Qed.

Lemma pack_blue r g b :
  0 <= r <= 255 -> 0 <= g <= 255 -> 0 <= b <= 255 -> blue (pack r g b) = b.
Proof.
  intros Hr Hg Hb. rewrite pack_lor by assumption. unfold blue.
  rewrite !Z.land_lor_distr_l.
  rewrite (land_255_shiftl r 16), (land_255_shiftl g 8) by lia.
  rewrite (land_255_byte b) by assumption.
  change (Z.land 4278190080 255) with 0. reflexivity.
Qed.

Lemma shiftr_10_level n c :
  0 <= n -> Z.shiftr n 10 = c -> 1024 * c <= n < 1024 * c + 1024.
Proof.
  intros Hn <-. rewrite Z.shiftr_div_pow2 by lia. change (2 ^ 10) with 1024.
  pose proof (Z.mul_div_le n 1024). pose proof (Z.mul_succ_div_gt n 1024). lia.
Qed.

(** No byte samples are converted to the opaque gray of level 7: the luma
    steps of 1192 jump from level 6 to level 8, and one chroma step moves a
    channel by more than a level. *)
Lemma YUV2RGB_misses_gray_7 nY nU nV :
  0 <= nY <= 255 -> 0 <= nU <= 255 -> 0 <= nV <= 255 ->
  YUV2RGB nY nU nV <> 4278650631.
Proof.
  intros HY HU HV E.
  assert (red (YUV2RGB nY nU nV) = 7 /\ green (YUV2RGB nY nU nV) = 7 /\
          blue (YUV2RGB nY nU nV) = 7) as (ER & EG & EB)
    by (rewrite E; repeat split; reflexivity).
  clear E. revert ER EG EB. unfold YUV2RGB.
  pose proof (channels_range nY nU nV) as H. revert H.
  unfold channels, int_add, int_sub, int_mul. int_small.
  replace (if nY - 16 <? 0 then 0 else nY - 16) with (Z.max (nY - 16) 0)
    by (destruct (Z.ltb_spec (nY - 16) 0); lia).
  int_small. rewrite !clamp_channel_min_max. intros (HR & HG & HB).
  rewrite pack_red, pack_green, pack_blue by (apply normalize_range; assumption).
  rewrite !normalize_shift by assumption.
  intros ER EG EB.
  apply shiftr_10_level in ER, EG, EB; try lia.
Qed.


(** * Further properties of the converter *)

(** ** Channels of a converted pixel *)

Lemma YUV2RGB_channels nY nU nV :
  let '(nR, nG, nB) := channels nY nU nV in
  red (YUV2RGB nY nU nV) = Z.shiftr nR 10 /\
  green (YUV2RGB nY nU nV) = Z.shiftr nG 10 /\
  blue (YUV2RGB nY nU nV) = Z.shiftr nB 10.
Proof.
  unfold YUV2RGB. pose proof (channels_range nY nU nV) as H.
  destruct (channels nY nU nV) as [[nR nG] nB]. destruct H as (HR & HG & HB).
  rewrite pack_red, pack_green, pack_blue by (apply normalize_range; assumption).
  now rewrite !normalize_shift by assumption.
Qed.

Lemma channels_bytes nY nU nV :
  0 <= nY <= 255 -> 0 <= nU <= 255 -> 0 <= nV <= 255 ->
  channels nY nU nV =
  (Z.min 262143 (Z.max 0 (1192 * Z.max (nY - 16) 0 + 1634 * (nV - 128))),
   Z.min 262143
     (Z.max 0 (1192 * Z.max (nY - 16) 0 - 833 * (nV - 128) - 400 * (nU - 128))),
   Z.min 262143 (Z.max 0 (1192 * Z.max (nY - 16) 0 + 2066 * (nU - 128)))).
Proof.
  intros HY HU HV. unfold channels, int_add, int_sub, int_mul. int_small.
  replace (if nY - 16 <? 0 then 0 else nY - 16) with (Z.max (nY - 16) 0)
    by (destruct (Z.ltb_spec (nY - 16) 0); lia).
  int_small. now rewrite !clamp_channel_min_max.
Qed.

Lemma shiftr_10_mono a b : a <= b -> Z.shiftr a 10 <= Z.shiftr b 10.
Proof.
  intros H. rewrite !Z.shiftr_div_pow2 by lia. apply Z.div_le_mono; [|exact H].
  now vm_compute.
Qed.

Lemma neutral_chroma_channels nY :
  0 <= nY <= 255 ->
  red (YUV2RGB nY 128 128) = Z.shiftr (Z.min 262143 (1192 * Z.max (nY - 16) 0)) 10 /\
  green (YUV2RGB nY 128 128) = Z.shiftr (Z.min 262143 (1192 * Z.max (nY - 16) 0)) 10 /\
  blue (YUV2RGB nY 128 128) = Z.shiftr (Z.min 262143 (1192 * Z.max (nY - 16) 0)) 10.
Proof.
  intros HY. pose proof (YUV2RGB_channels nY 128 128) as H.
  rewrite channels_bytes in H by lia. destruct H as (-> & -> & ->).
  repeat split; f_equal; lia.
Qed.

(** X1: a pixel with neutral chroma (U = V = 128) is gray: its red, green
    and blue channels are all equal to min(262143, 1192 * max(Y-16, 0)) >> 10. *)
Theorem neutral_chroma_is_gray nY :
  0 <= nY <= 255 ->
  red (YUV2RGB nY 128 128) = Z.shiftr (Z.min 262143 (1192 * Z.max (nY - 16) 0)) 10 /\
  green (YUV2RGB nY 128 128) = red (YUV2RGB nY 128 128) /\
  blue (YUV2RGB nY 128 128) = red (YUV2RGB nY 128 128).
Proof.
  intros HY. destruct (neutral_chroma_channels nY HY) as (ER & EG & EB).
  rewrite ER, EG, EB. repeat split.
Qed.

Lemma neutral_chroma_is_gray_witness :
  0 <= 100 <= 255 /\
  red (YUV2RGB 100 128 128) = Z.shiftr (Z.min 262143 (1192 * Z.max (100 - 16) 0)) 10 /\
  green (YUV2RGB 100 128 128) = red (YUV2RGB 100 128 128) /\
  blue (YUV2RGB 100 128 128) = red (YUV2RGB 100 128 128).
Proof. split; [lia|]. apply (neutral_chroma_is_gray 100). lia. Defined.

(** X2: with neutral chroma the conversion saturates at the top of the luma
    range: a luma byte gives the white pixel 0xFFFFFFFF exactly when it is at
    least 236. *)
Theorem white_from_luma_236 nY :
  0 <= nY <= 255 ->
  (YUV2RGB nY 128 128 = 4294967295 <-> 236 <= nY).
Proof.
  intros HY. split.
  - intros E. pose proof (neutral_chroma_channels nY HY) as (ER & _).
    rewrite E in ER. change (red 4294967295) with 255 in ER. symmetry in ER.
    apply shiftr_10_level in ER; lia.
  - intros H. unfold YUV2RGB. rewrite channels_bytes by lia.
    replace (Z.min 262143 (Z.max 0 (1192 * Z.max (nY - 16) 0 + 1634 * (128 - 128))))
      with 262143 by lia.
    replace (Z.min 262143
               (Z.max 0 (1192 * Z.max (nY - 16) 0 - 833 * (128 - 128)
                         - 400 * (128 - 128))))
      with 262143 by lia.
    replace (Z.min 262143 (Z.max 0 (1192 * Z.max (nY - 16) 0 + 2066 * (128 - 128))))
      with 262143 by lia.
    reflexivity.
Qed.

Lemma white_from_luma_236_witness :
  0 <= 236 <= 255 /\ (YUV2RGB 236 128 128 = 4294967295 <-> 236 <= 236).
Proof. split; [lia|]. apply (white_from_luma_236 236). lia. Defined.

(** X3: for fixed chroma bytes, no channel of the converted pixel decreases
    when the luma byte increases. *)
Theorem channels_monotone_in_luma nY1 nY2 nU nV :
  0 <= nY1 <= nY2 -> nY2 <= 255 -> 0 <= nU <= 255 -> 0 <= nV <= 255 ->
  red (YUV2RGB nY1 nU nV) <= red (YUV2RGB nY2 nU nV) /\
  green (YUV2RGB nY1 nU nV) <= green (YUV2RGB nY2 nU nV) /\
  blue (YUV2RGB nY1 nU nV) <= blue (YUV2RGB nY2 nU nV).
Proof.
  intros H1 H2 HU HV.
  pose proof (YUV2RGB_channels nY1 nU nV) as E1.
  pose proof (YUV2RGB_channels nY2 nU nV) as E2.
  rewrite channels_bytes in E1, E2 by lia.
  destruct E1 as (-> & -> & ->). destruct E2 as (-> & -> & ->).
  repeat split; apply shiftr_10_mono; lia.
Qed.

Lemma channels_monotone_in_luma_witness :
  0 <= 40 <= 200 /\ 200 <= 255 /\ 0 <= 90 <= 255 /\ 0 <= 240 <= 255 /\
  red (YUV2RGB 40 90 240) <= red (YUV2RGB 200 90 240) /\
  green (YUV2RGB 40 90 240) <= green (YUV2RGB 200 90 240) /\
  blue (YUV2RGB 40 90 240) <= blue (YUV2RGB 200 90 240).
Proof.
  split; [lia|]. split; [lia|]. split; [lia|]. split; [lia|].
  apply (channels_monotone_in_luma 40 200 90 240); lia.
Defined.

(** X4: the red channel of a converted pixel does not depend on U and the
    blue channel does not depend on V, for all [int] arguments. *)
Theorem red_ignores_U_blue_ignores_V nY nU nU' nV nV' :
  red (YUV2RGB nY nU nV) = red (YUV2RGB nY nU' nV) /\
  blue (YUV2RGB nY nU nV) = blue (YUV2RGB nY nU nV').
Proof.
  pose proof (YUV2RGB_channels nY nU nV) as E.
  pose proof (YUV2RGB_channels nY nU' nV) as EU.
  pose proof (YUV2RGB_channels nY nU nV') as EV.
  unfold channels in E, EU, EV.
  destruct E as (-> & _ & ->). destruct EU as (-> & _ & _).
  destruct EV as (_ & _ & ->). split; reflexivity.
Qed.

(** X13: a gray pixel other than black and white comes from neutral chroma
    only: if byte samples are converted to red = green = blue = c with
    1 <= c <= 254, then U = V = 128 and 1192 * (Y - 16) lies in
    [1024 c, 1024 c + 1023]. *)
Theorem gray_only_from_neutral_chroma nY nU nV c :
  0 <= nY <= 255 -> 0 <= nU <= 255 -> 0 <= nV <= 255 ->
  1 <= c <= 254 ->
  red (YUV2RGB nY nU nV) = c ->
  green (YUV2RGB nY nU nV) = c ->
  blue (YUV2RGB nY nU nV) = c ->
  nU = 128 /\ nV = 128 /\ 1024 * c <= 1192 * (nY - 16) <= 1024 * c + 1023.
Proof.
  intros HY HU HV Hc.
  pose proof (YUV2RGB_channels nY nU nV) as E.
  rewrite channels_bytes in E by lia. destruct E as (-> & -> & ->).
  intros ER EG EB.
  apply shiftr_10_level in ER, EG, EB; try lia.
Qed.

Lemma gray_only_from_neutral_chroma_witness :
  0 <= 100 <= 255 /\ 0 <= 128 <= 255 /\ 0 <= 128 <= 255 /\ 1 <= 97 <= 254 /\
  red (YUV2RGB 100 128 128) = 97 /\
  green (YUV2RGB 100 128 128) = 97 /\
  blue (YUV2RGB 100 128 128) = 97 /\
  128 = 128 /\ 128 = 128 /\ 1024 * 97 <= 1192 * (100 - 16) <= 1024 * 97 + 1023.
Proof.
  split; [lia|]. split; [lia|]. split; [lia|]. split; [lia|].
  split; [reflexivity|]. split; [reflexivity|]. split; [reflexivity|].
  apply (gray_only_from_neutral_chroma 100 128 128 97); first [lia | reflexivity].
Defined.

(** ** Conversions that agree, complete, or stop early *)

Lemma loop_words_ext_in G G' c n :
  forall i p,
    (forall k, 0 <= k < Z.of_nat n ->
       G (i + k) (p + k * c) = G' (i + k) (p + k * c)) ->
    loop_words G c n i p = loop_words G' c n i p.
Proof.
  induction n as [|n IH]; intros i p H; [reflexivity|].
  cbn [loop_words].
  pose proof (H 0 ltac:(lia)) as E0.
  rewrite Z.add_0_r in E0. replace (p + 0 * c) with p in E0 by lia. rewrite E0.
  rewrite (IH (i + 1) (p + c)); [reflexivity|].
  intros k Hk. replace (i + 1 + k) with (i + (k + 1)) by lia.
  replace (p + c + k * c) with (p + (k + 1) * c) by lia. apply H. lia.
Qed.

(** Two conversions of the same dimensions that compute the same word at
    every pixel have the same result. *)
Lemma convert_ext_in A1 A2 yData1 uvData1 yData2 uvData2 width height f1 f2 :
  (forall x y, 0 <= x < width -> 0 <= y < height ->
     pixel_word A1 yData1 uvData1 width f1 (y * width + x) y x =
     pixel_word A2 yData2 uvData2 width f2 (y * width + x) y x) ->
  ConvertYUV420SPToARGB8888 A1 yData1 uvData1 width height f1 =
  ConvertYUV420SPToARGB8888 A2 yData2 uvData2 width height f2.
Proof.
  intros H. rewrite !convert_frame_words. unfold frame_words.
  apply loop_words_ext_in. intros y Hy. unfold row_words.
  apply loop_words_ext_in. intros x Hx.
  rewrite !Z.add_0_l, Z.mul_1_r. rewrite Z2Nat.id by lia.
  rewrite H by lia. reflexivity.
Qed.

Lemma pixel_word_reads APPLE yData uvData width uv_flipped p y x w :
  pixel_word APPLE yData uvData width uv_flipped p y x = Some w ->
  is_Some (read yData p) /\
  is_Some (read uvData (chroma_offset width y x)) /\
  is_Some (read uvData (int_add (chroma_offset width y x) 1)).
Proof.
  unfold pixel_word, read_chroma.
  destruct (read yData p); [|discriminate]. simpl.
  destruct (read uvData (chroma_offset width y x)),
           (read uvData (int_add (chroma_offset width y x) 1)), APPLE;
    simpl; try discriminate; eauto.
Qed.

Lemma read_is_Some buf i :
  is_Some (read buf i) -> 0 <= i < Z.of_nat (length buf).
Proof.
  unfold read. destruct (decide (0 <= i)); [|intros [? [=]]].
  destruct (buf !! Z.to_nat i) as [b|] eqn:E; [|intros [? [=]]].
  apply lookup_lt_Some in E. lia.
Qed.

Lemma read_take buf n i : 0 <= i < Z.of_nat n -> read (take n buf) i = read buf i.
Proof. intros H. unfold read. rewrite lookup_take_lt by lia. reflexivity. Qed.

(** X5: the uvFlipped flag and the platform order of the chroma pair cancel:
    a build with [__APPLE__] called with a flag behaves, on every input, as a
    build without it called with the opposite flag. *)
Theorem flag_exchanges_platform_order APPLE yData uvData width height uv_flipped :
  ConvertYUV420SPToARGB8888 APPLE yData uvData width height uv_flipped =
  ConvertYUV420SPToARGB8888 (negb APPLE) yData uvData width height (negb uv_flipped).
Proof.
  apply convert_ext_in. intros x y _ _. unfold pixel_word, read_chroma.
  destruct (read yData _); [|reflexivity]. simpl.
  destruct (read uvData (chroma_offset width y x)),
           (read uvData (int_add (chroma_offset width y x) 1)),
           APPLE, uv_flipped; reflexivity.
Qed.

Lemma loop_words_empty G c n :
  (forall i p, G i p = Some []) -> forall i p, loop_words G c n i p = Some [].
Proof.
  intros H. induction n as [|n IH]; intros i p; [reflexivity|].
  cbn [loop_words]. now rewrite H, IH.
Qed.

(** X6: with a width or a height that is not positive the conversion reads
    no sample and stores no word, whatever the buffers, empty ones included. *)
Theorem convert_nothing_without_area APPLE yData uvData width height uv_flipped :
  width <= 0 \/ height <= 0 ->
  ConvertYUV420SPToARGB8888 APPLE yData uvData width height uv_flipped = Some [].
Proof.
  intros H. rewrite convert_frame_words. unfold frame_words.
  destruct (Z.le_gt_cases height 0) as [Hh|Hh].
  - replace (Z.to_nat height) with O by lia. reflexivity.
  - apply loop_words_empty. intros y p. unfold row_words.
    replace (Z.to_nat width) with O by lia. reflexivity.
Qed.

Lemma convert_nothing_without_area_witness :
  (0 <= 0 \/ 480 <= 0) /\
  ConvertYUV420SPToARGB8888 false [] [] 0 480 true = Some [].
Proof.
  split; [left; lia|].
  apply (convert_nothing_without_area false [] [] 0 480 true). left. lia.
Defined.

Lemma convert_needs_sizes APPLE yData uvData width height uv_flipped ws :
  valid_dims width height ->
  ConvertYUV420SPToARGB8888 APPLE yData uvData width height uv_flipped = Some ws ->
  width * height <= Z.of_nat (length yData) /\
  width * height / 2 <= Z.of_nat (length uvData) /\
  Z.of_nat (length ws) = width * height.
Proof.
  intros Hd E. pose proof (width_pos _ _ Hd) as Hw. pose proof (height_pos _ _ Hd) as Hh.
  apply convert_lookup in E as [L H].
  destruct (H (width - 1) (height - 1)) as (w & Ew & _); [lia|lia|].
  apply pixel_word_reads in Ew as (HY & _ & HV).
  apply read_is_Some in HY, HV.
  destruct (chroma_offset_valid width height (width - 1) (height - 1) Hd)
    as (_ & Eo1 & _ & _); [lia|lia|].
  rewrite Eo1 in HV. rewrite half_plane by apply Hd.
  pose proof (even_half _ (width_even _ _ Hd)) as Ea.
  pose proof (even_half _ (height_even _ _ Hd)) as Eb.
  assert (spec_offset width (height - 1) (width - 1) =
          (height / 2 - 1) * width + 2 * (width / 2 - 1)) as Es.
  { replace (height - 1) with (2 * (height / 2 - 1) + 1) at 1 by lia.
    replace (width - 1) with (2 * (width / 2 - 1) + 1) at 1 by lia.
    apply spec_offset_block; lia. }
  rewrite Es in HV.
  set (a := width / 2) in *. set (b := height / 2) in *. clearbody a b.
  subst width height. repeat split; lia.
Qed.

(** X7: for valid dimensions the buffer sizes of the data model are exactly
    what the conversion needs: it completes if and only if the luma plane
    holds at least width*height samples and the chroma plane at least
    width*height/2 bytes, and it then stores width*height words. *)
Theorem convert_completes_iff_sized APPLE yData uvData width height uv_flipped :
  valid_dims width height ->
  (is_Some (ConvertYUV420SPToARGB8888 APPLE yData uvData width height uv_flipped) <->
   width * height <= Z.of_nat (length yData) /\
   width * height / 2 <= Z.of_nat (length uvData)) /\
  (forall ws,
     ConvertYUV420SPToARGB8888 APPLE yData uvData width height uv_flipped = Some ws ->
     Z.of_nat (length ws) = width * height).
Proof.
  intros Hd. split; [split|].
  - intros [ws E]. pose proof (convert_needs_sizes _ _ _ _ _ _ _ Hd E). tauto.
  - intros [Hl Hc].
    destruct (convert_valid APPLE yData uvData width height uv_flipped)
      as (ws & E & _); [now constructor|]. eauto.
  - intros ws E. apply (convert_needs_sizes _ _ _ _ _ _ _ Hd E).
Qed.

Lemma convert_completes_iff_sized_witness :
  valid_dims 2 2 /\
  (is_Some (ConvertYUV420SPToARGB8888 false
              [Byte.x10; Byte.xeb; Byte.x51] [Byte.xf0; Byte.x5a] 2 2 false) <->
   2 * 2 <= Z.of_nat (length [Byte.x10; Byte.xeb; Byte.x51]) /\
   2 * 2 / 2 <= Z.of_nat (length [Byte.xf0; Byte.x5a])) /\
  (forall ws,
     ConvertYUV420SPToARGB8888 false
       [Byte.x10; Byte.xeb; Byte.x51] [Byte.xf0; Byte.x5a] 2 2 false = Some ws ->
     Z.of_nat (length ws) = 2 * 2).
Proof.
  split; [frame_is_valid|].
  apply (convert_completes_iff_sized false
           [Byte.x10; Byte.xeb; Byte.x51] [Byte.xf0; Byte.x5a] 2 2 false).
  frame_is_valid.
Defined.

Lemma loop_words_app G c n m :
  forall i p,
    loop_words G c (n + m) i p =
    ws1 ← loop_words G c n i p;
    ws2 ← loop_words G c m (i + Z.of_nat n) (p + Z.of_nat n * c);
    Some (ws1 ++ ws2).
Proof.
  induction n as [|n IH]; intros i p.
  - cbn [Nat.add loop_words]. change (Z.of_nat 0) with 0.
    rewrite Z.mul_0_l, !Z.add_0_r. simpl.
    now destruct (loop_words G c m i p).
  - cbn [Nat.add loop_words]. destruct (G i p) as [w0|]; [|reflexivity]. simpl.
    rewrite IH.
    replace (i + 1 + Z.of_nat n) with (i + Z.of_nat (S n)) by lia.
    replace (p + c + Z.of_nat n * c) with (p + Z.of_nat (S n) * c) by lia.
    destruct (loop_words G c n (i + 1) (p + c)) as [ws1|]; [|reflexivity]. simpl.
    destruct (loop_words G c m _ _) as [ws2|]; [|reflexivity]. simpl.
    now rewrite app_assoc.
Qed.

(** X8: the rows are converted from the top, one after the other: when the
    conversion of [height2] rows completes, so does the conversion of the
    first [height1 <= height2] rows of the same buffers, and its output is
    the first [height1 * width] words of the larger output. *)
Theorem convert_top_rows APPLE yData uvData width height1 height2 uv_flipped ws :
  0 <= height1 <= height2 ->
  ConvertYUV420SPToARGB8888 APPLE yData uvData width height2 uv_flipped = Some ws ->
  ConvertYUV420SPToARGB8888 APPLE yData uvData width height1 uv_flipped =
  Some (take (Z.to_nat height1 * Z.to_nat width) ws).
Proof.
  intros Hh E. rewrite convert_frame_words in *. unfold frame_words in *.
  replace (Z.to_nat height2)
    with (Z.to_nat height1 + (Z.to_nat height2 - Z.to_nat height1))%nat in E by lia.
  rewrite loop_words_app in E.
  destruct (loop_words _ _ (Z.to_nat height1) 0 0) as [ws1|] eqn:E1; [|discriminate].
  simpl in E.
  destruct (loop_words _ _ (Z.to_nat height2 - Z.to_nat height1)%nat _ _)
    as [ws2|]; [|discriminate].
  injection E as <-. f_equal.
  apply loop_words_lookup in E1 as [L _]; [|apply row_words_length].
  rewrite take_app_length'; [reflexivity|]. lia.
Qed.

Lemma convert_top_rows_witness :
  0 <= 2 <= 4 /\
  ConvertYUV420SPToARGB8888 false
    [Byte.x10; Byte.xeb; Byte.x51; Byte.xff; Byte.x29; Byte.x90; Byte.x00; Byte.x7f]
    [Byte.xf0; Byte.x5a; Byte.x22; Byte.xc8] 2 4 false =
  Some [4289855488; 4294947506; 4294836224; 4294953417;
        4278209966; 4278240767; 4278202513; 4278235647] /\
  ConvertYUV420SPToARGB8888 false
    [Byte.x10; Byte.xeb; Byte.x51; Byte.xff; Byte.x29; Byte.x90; Byte.x00; Byte.x7f]
    [Byte.xf0; Byte.x5a; Byte.x22; Byte.xc8] 2 2 false =
  Some (take (Z.to_nat 2 * Z.to_nat 2)
          [4289855488; 4294947506; 4294836224; 4294953417;
           4278209966; 4278240767; 4278202513; 4278235647]).
Proof.
  split; [lia|]. split; [reflexivity|].
  apply (convert_top_rows false
    [Byte.x10; Byte.xeb; Byte.x51; Byte.xff; Byte.x29; Byte.x90; Byte.x00; Byte.x7f]
    [Byte.xf0; Byte.x5a; Byte.x22; Byte.xc8] 2 2 4 false); [lia|reflexivity].
Defined.

(** X9: for valid dimensions the conversion sees nothing beyond the first
    width*height luma samples and the first width*height/2 chroma bytes:
    cutting both buffers there changes neither whether it completes nor what
    it stores. *)
Theorem convert_ignores_tail APPLE yData uvData width height uv_flipped :
  valid_dims width height ->
  ConvertYUV420SPToARGB8888 APPLE yData uvData width height uv_flipped =
  ConvertYUV420SPToARGB8888 APPLE
    (take (Z.to_nat (width * height)) yData)
    (take (Z.to_nat (width * height / 2)) uvData) width height uv_flipped.
Proof.
  intros Hd. apply convert_ext_in. intros x y Hx Hy.
  destruct (chroma_offset_valid _ _ _ _ Hd Hx Hy) as (Eo & Eo1 & Ho & Ho1).
  pose proof (luma_index_valid _ _ _ _ Hx Hy) as Hp.
  unfold pixel_word, read_chroma.
  rewrite (read_take yData), !(read_take uvData) by (rewrite ?Eo1, ?Eo; lia).
  reflexivity.
Qed.

Lemma convert_ignores_tail_witness :
  valid_dims 2 2 /\
  ConvertYUV420SPToARGB8888 false
    [Byte.x10; Byte.xeb; Byte.x51; Byte.xff; Byte.x29; Byte.x90]
    [Byte.xf0; Byte.x5a; Byte.x22; Byte.xc8] 2 2 true =
  ConvertYUV420SPToARGB8888 false
    (take (Z.to_nat (2 * 2)) [Byte.x10; Byte.xeb; Byte.x51; Byte.xff; Byte.x29; Byte.x90])
    (take (Z.to_nat (2 * 2 / 2)) [Byte.xf0; Byte.x5a; Byte.x22; Byte.xc8]) 2 2 true.
Proof.
  split; [frame_is_valid|].
  apply (convert_ignores_tail false
    [Byte.x10; Byte.xeb; Byte.x51; Byte.xff; Byte.x29; Byte.x90]
    [Byte.xf0; Byte.x5a; Byte.x22; Byte.xc8] 2 2 true).
  frame_is_valid.
Defined.

(** ** The converter on pointers into one array *)

Section PointerFacts.

Variable APPLE : bool.
Variables yData uvData : pointer.
Variable width : Z.
Variable uv_flipped : bool.

Lemma ptr_pixel_pixel_word y x st :
  Ptr.pixel APPLE yData uvData width uv_flipped y x st =
  w ← Ptr.pixel_word APPLE yData uvData width uv_flipped (pY st) y x;
  Some (State (pY st + 1) (out st ++ [w])).
Proof.
  unfold Ptr.pixel, Ptr.pixel_word.
  destruct (load yData (pY st)) as [nY|]; [|reflexivity]. simpl.
  destruct (Ptr.read_chroma APPLE uvData _) as [[nU nV]|]; [|reflexivity].
  now destruct uv_flipped.
Qed.

Lemma ptr_row_loop y st :
  for_int width (Ptr.pixel APPLE yData uvData width uv_flipped y) st =
  ws ← Ptr.row_words APPLE yData uvData width uv_flipped y (pY st);
  Some (State (pY st + Z.of_nat (Z.to_nat width)) (out st ++ ws)).
Proof.
  unfold for_int, Ptr.row_words.
  rewrite for_loop_words with
    (G := fun x q => w ← Ptr.pixel_word APPLE yData uvData width uv_flipped q y x;
                    Some [w]) (c := 1).
  - rewrite Z.mul_1_r. reflexivity.
  - intros x st'. rewrite ptr_pixel_pixel_word.
    destruct (Ptr.pixel_word _ _ _ _ _ _ _ _); reflexivity.
Qed.

Lemma ptr_convert_frame_words height :
  Ptr.ConvertYUV420SPToARGB8888 APPLE yData uvData width height uv_flipped =
  Ptr.frame_words APPLE yData uvData width height uv_flipped.
Proof.
  unfold Ptr.ConvertYUV420SPToARGB8888, Ptr.frame_words, for_int.
  rewrite for_loop_words with
    (G := Ptr.row_words APPLE yData uvData width uv_flipped)
    (c := Z.of_nat (Z.to_nat width)) by apply ptr_row_loop.
  simpl. destruct (loop_words _ _ _ _ _); reflexivity.
Qed.

Lemma ptr_row_words_length y p ws :
  Ptr.row_words APPLE yData uvData width uv_flipped y p = Some ws ->
  Z.of_nat (length ws) = Z.of_nat (Z.to_nat width).
Proof.
  intros H. apply loop_words_lookup in H as [H _]; [lia|].
  intros i q l E. destruct (Ptr.pixel_word _ _ _ _ _ _ _ _); [|discriminate].
  injection E as <-. reflexivity.
Qed.

Lemma ptr_convert_lookup height ws :
  Ptr.ConvertYUV420SPToARGB8888 APPLE yData uvData width height uv_flipped = Some ws ->
  Z.of_nat (length ws) = Z.of_nat (Z.to_nat height) * Z.of_nat (Z.to_nat width) /\
  forall x y, 0 <= x < width -> 0 <= y < height ->
    exists w,
      Ptr.pixel_word APPLE yData uvData width uv_flipped (y * width + x) y x = Some w /\
      ws !! Z.to_nat (y * width + x) = Some w.
Proof.
  rewrite ptr_convert_frame_words. unfold Ptr.frame_words. intros H.
  apply loop_words_lookup in H as [Hlen H]; [|apply ptr_row_words_length].
  split; [exact Hlen|]. intros x y Hx Hy.
  destruct (H y x) as (row & Erow & Lrow); [lia|lia|].
  rewrite Z2Nat.id in Erow, Lrow by lia. rewrite !Z.add_0_l in Erow.
  rewrite Lrow. unfold Ptr.row_words in Erow.
  apply loop_words_lookup in Erow as [_ Erow].
  - destruct (Erow x 0) as (wk & Ek & Lk); [lia|lia|].
    rewrite Z.add_0_l, Z.mul_1_r in Ek. rewrite Z.mul_1_r, Z.add_0_r in Lk.
    destruct (Ptr.pixel_word _ _ _ _ _ _ _ _) as [w|]; [|discriminate].
    injection Ek as <-. exists w. split; [reflexivity|]. rewrite Lk. reflexivity.
  - intros i q l E. destruct (Ptr.pixel_word _ _ _ _ _ _ _ _); [|discriminate].
    injection E as <-. reflexivity.
Qed.


Lemma ptr_convert_words_YUV2RGB height ws :
  Ptr.ConvertYUV420SPToARGB8888 APPLE yData uvData width height uv_flipped = Some ws ->
  Forall (fun w => exists nY nU nV, w = YUV2RGB nY nU nV) ws.
Proof.
  rewrite ptr_convert_frame_words. unfold Ptr.frame_words.
  apply loop_words_Forall. intros y p row. unfold Ptr.row_words.
  apply loop_words_Forall. intros x q l E.
  destruct (Ptr.pixel_word _ _ _ _ _ _ _ _) as [w|] eqn:Ew; [|discriminate].
  injection E as <-. repeat constructor.
  unfold Ptr.pixel_word in Ew.
  destruct (load yData q) as [nY|]; [|discriminate]. simpl in Ew.
  destruct (Ptr.read_chroma APPLE uvData _) as [[nU nV]|]; [|discriminate].
  injection Ew as <-. destruct uv_flipped; eauto.
Qed.

(** The conversion on pointers and the conversion on two buffers have the
    same result as soon as they compute the same word at every pixel. *)
Lemma ptr_convert_ext_list yBuf uvBuf height :
  (forall x y, 0 <= x < width -> 0 <= y < height ->
     Ptr.pixel_word APPLE yData uvData width uv_flipped (y * width + x) y x =
     pixel_word APPLE yBuf uvBuf width uv_flipped (y * width + x) y x) ->
  Ptr.ConvertYUV420SPToARGB8888 APPLE yData uvData width height uv_flipped =
  ConvertYUV420SPToARGB8888 APPLE yBuf uvBuf width height uv_flipped.
Proof.
  intros H. rewrite ptr_convert_frame_words, convert_frame_words.
  unfold Ptr.frame_words, frame_words.
  apply loop_words_ext_in. intros y Hy. unfold Ptr.row_words, row_words.
  apply loop_words_ext_in. intros x Hx.
  rewrite !Z.add_0_l, Z.mul_1_r. rewrite Z2Nat.id by lia.
  rewrite H by lia. reflexivity.
Qed.

End PointerFacts.

Lemma ptr_pixel_word_reads APPLE yData uvData width uv_flipped p y x w :
  Ptr.pixel_word APPLE yData uvData width uv_flipped p y x = Some w ->
  is_Some (load yData p) /\
  is_Some (load uvData (chroma_offset width y x)) /\
  is_Some (load uvData (int_add (chroma_offset width y x) 1)).
Proof.
  unfold Ptr.pixel_word, Ptr.read_chroma.
  destruct (load yData p); [|discriminate]. simpl.
  destruct (load uvData (chroma_offset width y x)),
           (load uvData (int_add (chroma_offset width y x) 1)), APPLE;
    simpl; try discriminate; eauto.
Qed.


(** Two pointers to the first elements of two buffers: the conversion on two
    buffers. *)
Lemma ptr_convert_own_buffers APPLE yData uvData width height uv_flipped :
  Ptr.ConvertYUV420SPToARGB8888 APPLE (Pointer yData 0) (Pointer uvData 0)
    width height uv_flipped =
  ConvertYUV420SPToARGB8888 APPLE yData uvData width height uv_flipped.
Proof.
  apply ptr_convert_ext_list. intros x y _ _.
  unfold Ptr.pixel_word, pixel_word, Ptr.read_chroma, read_chroma, load. simpl.
  now rewrite !Z.add_0_l.
Qed.

Lemma read_drop buf n i :
  0 <= n -> 0 <= i -> read (drop (Z.to_nat n) buf) i = read buf (n + i).
Proof.
  intros Hn Hi. unfold read.
  destruct (decide (0 <= i)); [|lia]. destruct (decide (0 <= n + i)); [|lia].
  rewrite lookup_drop, Z2Nat.inj_add by lia. reflexivity.
Qed.

(** For valid dimensions, the conversion of an array holding the luma plane
    and then the chroma plane is the conversion of the two planes. *)
Lemma ptr_convert_planes APPLE input width height uv_flipped :
  valid_dims width height ->
  Ptr.ConvertYUV420SPToARGB8888 APPLE
    (Pointer input 0) (Pointer input (width * height)) width height uv_flipped =
  ConvertYUV420SPToARGB8888 APPLE input (drop (Z.to_nat (width * height)) input)
    width height uv_flipped.
Proof.
  intros Hd. apply ptr_convert_ext_list. intros x y Hx Hy.
  destruct (chroma_offset_valid _ _ _ _ Hd Hx Hy) as (Eo & Eo1 & Ho & Ho1).
  assert (0 <= width * height)
    by (apply Z.mul_nonneg_nonneg; [pose proof (width_pos _ _ Hd)
                                   |pose proof (height_pos _ _ Hd)]; lia).
  unfold Ptr.pixel_word, pixel_word, Ptr.read_chroma, read_chroma, load. simpl.
  rewrite Z.add_0_l, !read_drop by (rewrite ?Eo1, ?Eo; lia). reflexivity.
Qed.

(** ** Chroma indices for every positive even width and height *)






(** At 65536 by 65538 the product of line 72 does not fit an [int] for the
    pixel (0, 65537): the chroma index is negative and the sample read is one
    of the luma plane. *)
Example chroma_index_wraps_into_luma :
  chroma_offset 65536 65537 0 = -2147483648 /\
  0 <= 65536 * 65538 + chroma_offset 65536 65537 0 < 65536 * 65538.
Proof. repeat split; now vm_compute. Qed.



(** ** The JNI binding *)

Lemma as_jint_opaque w :
  Z.shiftr w 24 = 255 ->
  as_jint w = w - 4294967296 /\ -16777216 <= as_jint w <= -1.
Proof.
  intros H. apply high_byte_word in H as [Hw Ha].
  unfold alpha in Ha. change 255 with (Z.ones 8) in Ha at 1.
  rewrite Z.land_ones, Z.shiftr_div_pow2 in Ha by lia.
  change (2 ^ 24) with 16777216 in Ha. change (2 ^ 8) with 256 in Ha.
  assert (0 <= w / 16777216 < 256) as Hq
    by (split; [apply Z.div_pos; lia|apply Z.div_lt_upper_bound; lia]).
  rewrite Z.mod_small in Ha by exact Hq.
  pose proof (Z.mul_div_le w 16777216 ltac:(lia)) as Hlo. rewrite Ha in Hlo.
  unfold as_jint, wrap_int.
  replace (w + 2147483648) with (w - 2147483648 + 1 * 4294967296) by lia.
  rewrite Z.mod_add, Z.mod_small by lia. lia.
Qed.

Lemma dims_of_java_array width height n :
  0 < width -> 0 < height -> Z.even width = true -> Z.even height = true ->
  width * height <= n -> n <= INT_MAX ->
  valid_dims width height /\ int_mul width height = width * height.
Proof.
  intros Hw Hh Ew Eh Hn Hmax. unfold INT_MAX in *.
  assert (width * 1 <= width * height) by (apply Z.mul_le_mono_nonneg_l; lia).
  assert (1 * height <= width * height) by (apply Z.mul_le_mono_nonneg_r; lia).
  assert (width * height / 2 <= width * height)
    by (apply Z.div_le_upper_bound; lia).
  split.
  - constructor; unfold INT_MAX; try assumption; lia.
  - unfold int_mul. apply wrap_int_small. unfold is_int, INT_MIN, INT_MAX. lia.
Qed.

Lemma convert_take_luma APPLE yData uvData width height uv_flipped :
  ConvertYUV420SPToARGB8888 APPLE yData uvData width height uv_flipped =
  ConvertYUV420SPToARGB8888 APPLE (take (Z.to_nat (width * height)) yData) uvData
    width height uv_flipped.
Proof.
  apply convert_ext_in. intros x y Hx Hy.
  pose proof (luma_index_valid _ _ _ _ Hx Hy) as Hp.
  unfold pixel_word. rewrite (read_take yData) by lia. reflexivity.
Qed.

(** X10: called on Java arrays (at most 2^31 - 1 elements) with positive
    even dimensions, an input of at least width*height*3/2 bytes and an
    output of at least width*height ints, the array binding completes; it
    replaces the first width*height ints by the words of the conversion of
    the two planes of the input, read as Java ints, and keeps the others.
    No bound on the dimensions is needed beyond the sizes of the arrays. *)
Theorem array_call_converts APPLE input output width height uvFlipped :
  0 < width -> 0 < height -> Z.even width = true -> Z.even height = true ->
  Z.of_nat (length input) <= INT_MAX ->
  width * height + width * height / 2 <= Z.of_nat (length input) ->
  width * height <= Z.of_nat (length output) ->
  exists ws,
    ConvertYUV420SPToARGB8888 APPLE
      (take (Z.to_nat (width * height)) input)
      (drop (Z.to_nat (width * height)) input) width height uvFlipped = Some ws /\
    Z.of_nat (length ws) = width * height /\
    convertYUV420SPToARGB8888 APPLE input output width height uvFlipped =
    Some ((as_jint <$> ws) ++ drop (Z.to_nat (width * height)) output).
Proof.
  intros Hw Hh Ew Eh Hmax Hin Hout.
  assert (0 <= width * height / 2)
    by (apply Z.div_pos; [apply Z.mul_nonneg_nonneg|]; lia).
  assert (0 < width * height) by (apply Z.mul_pos_pos; lia).
  destruct (dims_of_java_array width height (Z.of_nat (length input)))
    as [Hd Em]; try assumption; [lia|].
  destruct (convert_valid APPLE input (drop (Z.to_nat (width * height)) input)
              width height uvFlipped) as (ws & E & L & _).
  { constructor; [exact Hd|lia|]. rewrite length_drop. lia. }
  exists ws. split; [rewrite <- convert_take_luma; exact E|]. split; [exact L|].
  unfold convertYUV420SPToARGB8888.
  rewrite Em, ptr_convert_planes by exact Hd. rewrite E. simpl.
  unfold store_words.
  destruct (decide (length ws <= length output)%nat); [|lia].
  replace (length ws) with (Z.to_nat (width * height)) by lia. reflexivity.
Qed.

Lemma array_call_converts_witness :
  0 < 2 /\ 0 < 2 /\ Z.even 2 = true /\ Z.even 2 = true /\
  Z.of_nat (length [Byte.x10; Byte.xeb; Byte.x51; Byte.xff; Byte.xf0; Byte.x5a])
    <= INT_MAX /\
  2 * 2 + 2 * 2 / 2 <=
    Z.of_nat (length [Byte.x10; Byte.xeb; Byte.x51; Byte.xff; Byte.xf0; Byte.x5a]) /\
  2 * 2 <= Z.of_nat (length [0; 1; 2; 3; 4]) /\
  exists ws,
    ConvertYUV420SPToARGB8888 false
      (take (Z.to_nat (2 * 2))
         [Byte.x10; Byte.xeb; Byte.x51; Byte.xff; Byte.xf0; Byte.x5a])
      (drop (Z.to_nat (2 * 2))
         [Byte.x10; Byte.xeb; Byte.x51; Byte.xff; Byte.xf0; Byte.x5a])
      2 2 false = Some ws /\
    Z.of_nat (length ws) = 2 * 2 /\
    convertYUV420SPToARGB8888 false
      [Byte.x10; Byte.xeb; Byte.x51; Byte.xff; Byte.xf0; Byte.x5a]
      [0; 1; 2; 3; 4] 2 2 false =
    Some ((as_jint <$> ws) ++ drop (Z.to_nat (2 * 2)) [0; 1; 2; 3; 4]).
Proof.
  split; [lia|]. split; [lia|]. split; [reflexivity|]. split; [reflexivity|].
  split; [now vm_compute|]. split; [now vm_compute|]. split; [now vm_compute|].
  apply (array_call_converts false
           [Byte.x10; Byte.xeb; Byte.x51; Byte.xff; Byte.xf0; Byte.x5a]
           [0; 1; 2; 3; 4] 2 2 false);
    first [lia | reflexivity | now vm_compute].
Defined.

Lemma store_words_Some output ws output' :
  store_words output ws = Some output' ->
  (length ws <= length output)%nat /\
  output' = (as_jint <$> ws) ++ drop (length ws) output.
Proof.
  unfold store_words. destruct (decide _); [|discriminate].
  intros [= <-]. split; [assumption|reflexivity].
Qed.

Lemma array_call_Some APPLE input output width height uvFlipped output' :
  convertYUV420SPToARGB8888 APPLE input output width height uvFlipped = Some output' ->
  exists ws,
    Ptr.ConvertYUV420SPToARGB8888 APPLE
      (Pointer input 0) (Pointer input (int_mul width height))
      width height uvFlipped = Some ws /\
    (length ws <= length output)%nat /\
    output' = (as_jint <$> ws) ++ drop (length ws) output.
Proof.
  unfold convertYUV420SPToARGB8888.
  destruct (Ptr.ConvertYUV420SPToARGB8888 _ _ _ _ _ _) as [ws|] eqn:E; [|discriminate].
  simpl. intros Hs. apply store_words_Some in Hs as [Hl ->]. eauto.
Qed.

(** X11: whenever the array binding completes, the [int] array keeps its
    length, its first max(height,0)*max(width,0) elements are negative Java
    ints between -16777216 and -1 (opaque pixels read as signed), and every
    later element is left as it was. *)
Theorem array_call_effect APPLE input output width height uvFlipped output' :
  convertYUV420SPToARGB8888 APPLE input output width height uvFlipped = Some output' ->
  length output' = length output /\
  (Z.to_nat height * Z.to_nat width <= length output)%nat /\
  (forall i v, (i < Z.to_nat height * Z.to_nat width)%nat ->
     output' !! i = Some v -> -16777216 <= v <= -1) /\
  (forall i, (Z.to_nat height * Z.to_nat width <= i)%nat ->
     output' !! i = output !! i).
Proof.
  intros H. apply array_call_Some in H as (ws & E & Hl & ->).
  pose proof (ptr_convert_words_YUV2RGB _ _ _ _ _ _ _ E) as HF.
  apply ptr_convert_lookup in E as [L _].
  assert (length ws = (Z.to_nat height * Z.to_nat width)%nat) as Ln by lia.
  rewrite <- Ln. split; [|split; [exact Hl|split]].
  - rewrite length_app, length_fmap, length_drop. lia.
  - intros i v Hi. rewrite lookup_app_l by (rewrite length_fmap; lia).
    rewrite list_lookup_fmap. destruct (ws !! i) as [w|] eqn:Ew; [|discriminate].
    intros [= <-]. rewrite Forall_lookup in HF.
    destruct (HF i w Ew) as (nY & nU & nV & ->).
    apply as_jint_opaque, YUV2RGB_high_byte.
  - intros i Hi. rewrite lookup_app_r by (rewrite length_fmap; lia).
    rewrite length_fmap, lookup_drop. f_equal. lia.
Qed.

Lemma array_call_effect_witness :
  convertYUV420SPToARGB8888 false
    [Byte.x10; Byte.xeb; Byte.x51; Byte.xff; Byte.xf0; Byte.x5a]
    [0; 1; 2; 3; 4] 2 2 false =
  Some [-5111808; -19790; -131072; -13879; 4] /\
  length [-5111808; -19790; -131072; -13879; 4] = length [0; 1; 2; 3; 4] /\
  (Z.to_nat 2 * Z.to_nat 2 <= length [0; 1; 2; 3; 4])%nat /\
  (forall i v, (i < Z.to_nat 2 * Z.to_nat 2)%nat ->
     [-5111808; -19790; -131072; -13879; 4] !! i = Some v -> -16777216 <= v <= -1) /\
  (forall i, (Z.to_nat 2 * Z.to_nat 2 <= i)%nat ->
     [-5111808; -19790; -131072; -13879; 4] !! i = [0; 1; 2; 3; 4] !! i).
Proof.
  split; [reflexivity|].
  apply (array_call_effect false
           [Byte.x10; Byte.xeb; Byte.x51; Byte.xff; Byte.xf0; Byte.x5a]
           [0; 1; 2; 3; 4] 2 2 false).
  reflexivity.
Defined.

(** With a width or a height that is not positive the binding only forms
    the chroma pointer, reads nothing and returns the array as it was. *)
Example array_call_without_area :
  convertYUV420SPToARGB8888 false [] [1; 2; 3] (-2) 3 true = Some [1; 2; 3].
Proof. reflexivity. Qed.

(** X14: on a Java [byte] array (at most 2^31 - 1 elements) and positive
    even [int] dimensions, the array binding completes only if the input
    holds at least width*height*3/2 bytes and the output at least
    width*height ints. *)
Theorem array_call_needs_sizes APPLE input output width height uvFlipped output' :
  0 < width <= INT_MAX -> 0 < height <= INT_MAX ->
  Z.even width = true -> Z.even height = true ->
  Z.of_nat (length input) <= INT_MAX ->
  convertYUV420SPToARGB8888 APPLE input output width height uvFlipped = Some output' ->
  width * height + width * height / 2 <= Z.of_nat (length input) /\
  width * height <= Z.of_nat (length output).
Proof.
  intros Hw Hh Ew Eh Hmax H.
  apply array_call_Some in H as (ws & E & Hl & _).
  pose proof E as E'. apply ptr_convert_lookup in E' as [L Hpix].
  destruct (Hpix (width - 1) (height - 1)) as (w & Ew' & _); [lia|lia|].
  apply ptr_pixel_word_reads in Ew' as (HY & _). unfold load in HY. simpl in HY.
  apply read_is_Some in HY.
  assert (width * height <= Z.of_nat (length input)) as Hin by lia.
  destruct (dims_of_java_array width height (Z.of_nat (length input)))
    as [Hd Em]; try assumption; try lia.
  rewrite Em, ptr_convert_planes in E by exact Hd.
  destruct (convert_needs_sizes _ _ _ _ _ _ _ Hd E) as (_ & Hc & Lw).
  rewrite length_drop in Hc. lia.
Qed.

Lemma array_call_needs_sizes_witness :
  0 < 2 <= INT_MAX /\ 0 < 2 <= INT_MAX /\
  Z.even 2 = true /\ Z.even 2 = true /\
  Z.of_nat (length [Byte.x10; Byte.xeb; Byte.x51; Byte.xff; Byte.xf0; Byte.x5a])
    <= INT_MAX /\
  convertYUV420SPToARGB8888 false
    [Byte.x10; Byte.xeb; Byte.x51; Byte.xff; Byte.xf0; Byte.x5a]
    [0; 1; 2; 3; 4] 2 2 false =
  Some [-5111808; -19790; -131072; -13879; 4] /\
  2 * 2 + 2 * 2 / 2 <=
    Z.of_nat (length [Byte.x10; Byte.xeb; Byte.x51; Byte.xff; Byte.xf0; Byte.x5a]) /\
  2 * 2 <= Z.of_nat (length [0; 1; 2; 3; 4]).
Proof.
  split; [now vm_compute|]. split; [now vm_compute|].
  split; [reflexivity|]. split; [reflexivity|].
  split; [now vm_compute|]. split; [reflexivity|].
  apply (array_call_needs_sizes false
           [Byte.x10; Byte.xeb; Byte.x51; Byte.xff; Byte.xf0; Byte.x5a]
           [0; 1; 2; 3; 4] 2 2 false [-5111808; -19790; -131072; -13879; 4]);
    first [reflexivity | now vm_compute].
Defined.

(** ** An odd height *)

Lemma pixel_word_is_Some APPLE yData uvData width uv_flipped p y x :
  is_Some (read yData p) ->
  is_Some (read uvData (chroma_offset width y x)) ->
  is_Some (read uvData (int_add (chroma_offset width y x) 1)) ->
  is_Some (pixel_word APPLE yData uvData width uv_flipped p y x).
Proof.
  intros [nY EY] [a Ea] [b Eb]. unfold pixel_word, read_chroma.
  rewrite EY, Ea, Eb. destruct APPLE; eexists; reflexivity.
Qed.

(** X15: an odd height uses the chroma rows of the next even height: when
    height + 1 is a valid height for the width, the conversion of height
    rows completes if and only if the luma plane holds width*height samples
    and the chroma plane width*(height+1)/2 bytes, more than the
    width*height/2 bytes of the data model. *)
Theorem odd_height_chroma_rows APPLE yData uvData width height uv_flipped :
  valid_dims width (height + 1) -> 0 < height ->
  (is_Some (ConvertYUV420SPToARGB8888 APPLE yData uvData width height uv_flipped) <->
   width * height <= Z.of_nat (length yData) /\
   width * (height + 1) / 2 <= Z.of_nat (length uvData)) /\
  width * height / 2 < width * (height + 1) / 2.
Proof.
  intros Hd Hh. pose proof (width_pos _ _ Hd) as Hw.
  pose proof (even_half _ (width_even _ _ Hd)) as Ea.
  pose proof (even_half _ (height_even _ _ Hd)) as Eb.
  rewrite !half_plane by apply Hd.
  split; [split|].
  - intros [ws E]. apply convert_lookup in E as [_ H].
    destruct (H (width - 1) (height - 1)) as (w & Ew & _); [lia|lia|].
    apply pixel_word_reads in Ew as (HY & _ & HV).
    apply read_is_Some in HY, HV.
    destruct (chroma_offset_valid width (height + 1) (width - 1) (height - 1) Hd)
      as (_ & Eo1 & _ & _); [lia|lia|].
    rewrite Eo1 in HV.
    assert (spec_offset width (height - 1) (width - 1) =
            ((height + 1) / 2 - 1) * width + 2 * (width / 2 - 1)) as Es.
    { replace (height - 1) with (2 * ((height + 1) / 2 - 1) + 0) at 1 by lia.
      replace (width - 1) with (2 * (width / 2 - 1) + 1) at 1 by lia.
      apply spec_offset_block; lia. }
    rewrite Es in HV.
    set (a := width / 2) in *. set (b := (height + 1) / 2) in *. clearbody a b.
    assert (height = 2 * b - 1) as -> by lia. subst width. split; lia.
  - intros [Hl Hc]. apply convert_total. intros x y Hx Hy.
    destruct (chroma_offset_valid width (height + 1) x y Hd)
      as (Eo & Eo1 & Ho & Ho1); [lia|lia|].
    rewrite half_plane in Ho1 by apply Hd.
    pose proof (luma_index_valid _ _ _ _ Hx Hy).
    apply pixel_word_is_Some; apply read_in_bounds; rewrite ?Eo1, ?Eo; lia.
  - set (a := width / 2) in *. clearbody a.
    apply Z.mul_lt_mono_pos_l; lia.
Qed.

Lemma odd_height_chroma_rows_witness :
  valid_dims 2 (3 + 1) /\ 0 < 3 /\
  (is_Some (ConvertYUV420SPToARGB8888 false
              [Byte.x10; Byte.xeb; Byte.x51; Byte.xff; Byte.x29; Byte.x90]
              [Byte.xf0; Byte.x5a; Byte.x22] 2 3 false) <->
   2 * 3 <= Z.of_nat (length [Byte.x10; Byte.xeb; Byte.x51; Byte.xff; Byte.x29; Byte.x90]) /\
   2 * (3 + 1) / 2 <= Z.of_nat (length [Byte.xf0; Byte.x5a; Byte.x22])) /\
  2 * 3 / 2 < 2 * (3 + 1) / 2.
Proof.
  split; [frame_is_valid|]. split; [lia|].
  apply (odd_height_chroma_rows false
           [Byte.x10; Byte.xeb; Byte.x51; Byte.xff; Byte.x29; Byte.x90]
           [Byte.xf0; Byte.x5a; Byte.x22] 2 3 false); [frame_is_valid|lia].
Defined.

(** ** Luma levels that stay distinct *)

Lemma shiftr_10_strict a b : a + 1024 <= b -> Z.shiftr a 10 < Z.shiftr b 10.
Proof.
  intros H. rewrite !Z.shiftr_div_pow2 by lia. change (2 ^ 10) with 1024.
  assert ((a + 1 * 1024) / 1024 <= b / 1024) as Hd
    by (apply Z.div_le_mono; lia).
  rewrite Z.div_add in Hd by lia. lia.
Qed.

(** X16: with neutral chroma, luma bytes between 16 and 236 are kept apart:
    a larger luma gives a strictly larger gray level, so the only luma
    values that collapse are those up to 16 and those from 236 on. *)
Theorem nominal_luma_strictly_monotone nY1 nY2 :
  16 <= nY1 -> nY1 < nY2 -> nY2 <= 236 ->
  red (YUV2RGB nY1 128 128) < red (YUV2RGB nY2 128 128) /\
  YUV2RGB nY1 128 128 <> YUV2RGB nY2 128 128.
Proof.
  intros H1 H2 H3.
  destruct (neutral_chroma_channels nY1) as (E1 & _); [lia|].
  destruct (neutral_chroma_channels nY2) as (E2 & _); [lia|].
  assert (red (YUV2RGB nY1 128 128) < red (YUV2RGB nY2 128 128)) as Hlt.
  { rewrite E1, E2. apply shiftr_10_strict. lia. }
  split; [exact Hlt|]. intros E. rewrite E in Hlt. lia.
Qed.

Lemma nominal_luma_strictly_monotone_witness :
  16 <= 235 /\ 235 < 236 /\ 236 <= 236 /\
  red (YUV2RGB 235 128 128) < red (YUV2RGB 236 128 128) /\
  YUV2RGB 235 128 128 <> YUV2RGB 236 128 128.
Proof.
  split; [lia|]. split; [lia|]. split; [lia|].
  apply (nominal_luma_strictly_monotone 235 236); lia.
Defined.
